(** * The file-backed game store ([LocalFilesystem]): model and properties

    The store keeps, for every game, a current snapshot file
    [<dbFolder>/<gameId>.json] and one history file per save,
    [<dbFolder>/history/<gameId>-<saveId padded to 5>.json].

    The development embeds the class [LocalFilesystem] method by method.
    What the class takes from its platform is modelled next to it:

    - JavaScript strings are [string]s (sequences of 8-bit code units; every
      literal of the class is ASCII);
    - JavaScript numbers are the integers and [NaN] (type [number]); the
      arithmetic the class performs on them is [lastSaveId++] and the
      comparison [rollbackCount <= 0], both exact on integers in the safe
      range; fractions and infinities are outside the model, in JSON values
      too;
    - the file system is a finite map from absolute paths to nodes (a regular
      file with its text, or a directory); the calls of [fs] are
      computations on this map; a path is the text [path.resolve] makes of
      a folder and of one path component ([Path.resolve]);
    - a computation throws ([Throw]) or returns ([Return]); the promise a
      method returns is [Resolved] or [Rejected], and a continuation runs
      where its promise is made;
    - [isGameId], [JSON.parse], [JSON.stringify] and [Game.serialize] are
      parameters of the class; [MiniJSON] and [Demo] give instances on which
      the methods can be run;
    - [console.log] and [console.error] have no effect on the state and are
      left out. *)

From Stdlib Require Import ZArith Ascii String Lia.
From stdpp Require Import gmap strings list fin_maps.

Local Open Scope Z_scope.

(** ** JavaScript strings *)

Module Str.

(** [s.startsWith(p)] *)
Fixpoint startsWith (p s : string) : bool :=
  match p, s with
  | EmptyString, _ => true
  | String a p', String b s' => if decide (a = b) then startsWith p' s' else false
  | String _ _, EmptyString => false
  end.

(** [stripPrefix p s] is [Some r] when [s = p + r]. *)
Fixpoint stripPrefix (p s : string) : option string :=
  match p, s with
  | EmptyString, _ => Some s
  | String a p', String b s' => if decide (a = b) then stripPrefix p' s' else None
  | String _ _, EmptyString => None
  end.

(** [contains c s]: the code unit [c] occurs in [s]. *)
Fixpoint contains (c : ascii) (s : string) : bool :=
  match s with
  | EmptyString => false
  | String a s' => if decide (a = c) then true else contains c s'
  end.

(** The first [k] code units of [fill] repeated, as [padStart] builds its
    filler; [rest] is what is left of the current copy of [fill]. *)
Fixpoint filler (k : nat) (fill rest : string) : string :=
  match k with
  | O => ""
  | S k' =>
      match rest with
      | String c r => String c (filler k' fill r)
      | EmptyString =>
          match fill with
          | String c r => String c (filler k' fill r)
          | EmptyString => ""
          end
      end
  end.

(** [s.padStart(targetLength, fill)]: [s] itself when it is already long
    enough (it is never truncated) or when [fill] is empty. *)
Definition padStart (targetLength : nat) (fill s : string) : string :=
  if decide (targetLength ≤ String.length s)%nat then s
  else filler (targetLength - String.length s) fill fill +:+ s.


(** [all p s]: every code unit of [s] satisfies [p]. *)
Fixpoint all (p : ascii → bool) (s : string) : bool :=
  match s with
  | EmptyString => true
  | String c s' => p c && all p s'
  end.

(** White space and line terminators, as [Number] trims them. *)
Fixpoint trimStart (s : string) : string :=
  match s with
  | String c s' => if Ascii.is_space c then trimStart s' else s
  | EmptyString => ""
  end.

Fixpoint trimEnd (s : string) : string :=
  match s with
  | String c s' =>
      match trimEnd s' with
      | EmptyString => if Ascii.is_space c then "" else String c ""
      | t => String c t
      end
  | EmptyString => ""
  end.

Definition trim (s : string) : string := trimEnd (trimStart s).

End Str.

(** ** JavaScript numbers *)

Inductive number :=
| Int (z : Z)
| NaN.

Global Instance number_eq_dec : EqDecision number.
Proof. solve_decision. Defined.

Module Num.

Definition digitChar (d : Z) : ascii := ascii_of_N (48 + Z.to_N d).

Definition isDigit (c : ascii) : bool :=
  ((48 <=? N_of_ascii c) && (N_of_ascii c <=? 57))%N.

Definition digitValue (c : ascii) : Z := Z.of_N (N_of_ascii c) - 48.

(** Decimal digits of a natural number, most significant first, pushed in
    front of [acc]. *)
Fixpoint decimalGo (fuel : nat) (n : Z) (acc : string) : string :=
  match fuel with
  | O => acc
  | S fuel' =>
      let acc' := String (digitChar (n mod 10)) acc in
      if n <? 10 then acc' else decimalGo fuel' (n / 10) acc'
  end.

(** A number below [2^k] has at most [k] decimal digits ([k >= 1]). *)
Definition decimal (n : Z) : string :=
  decimalGo (S (Z.to_nat (Z.log2 n))) n "".

(** [n.toString()], also the conversion a template literal applies. *)
Definition toString (n : number) : string :=
  match n with
  | NaN => "NaN"
  | Int z => if z <? 0 then "-" +:+ decimal (- z) else decimal z
  end.

(** Value of a string of decimal digits read after [acc]; [None] when some
    code unit is not a digit. *)
Fixpoint digitsValue (s : string) (acc : Z) : option Z :=
  match s with
  | EmptyString => Some acc
  | String c s' =>
      if isDigit c then digitsValue s' (10 * acc + digitValue c) else None
  end.

Definition unsignedValue (s : string) : option Z :=
  match s with
  | EmptyString => None
  | _ => digitsValue s 0
  end.

(** [Number(s)] on the literals the store meets: optional white space, an
    optional sign and decimal digits; the empty string is [0]. The other
    literals of the language (fraction, exponent, radix prefix,
    [Infinity]) denote numbers outside [number] and are not interpreted:
    they fall, with everything that is no literal at all, on [NaN]. *)
Definition Number (s : string) : number :=
  match Str.trim s with
  | EmptyString => Int 0
  | String c r as t =>
      if decide (c = "-"%char) then from_option (λ v, Int (- v)) NaN (unsignedValue r)
      else if decide (c = "+"%char) then from_option Int NaN (unsignedValue r)
      else from_option Int NaN (unsignedValue t)
  end.

(** [x++] *)
Definition incr (z : Z) : Z := z + 1.

End Num.

(** ** Regular expressions

    The two patterns of the class, written here with blanks between their
    atoms, are [( .* ) . j s o n] and [( .* ) - ( .* ) . j s o n]: sequences
    of three kinds of atoms. Matching is the backtracking search of
    the language: a greedy group first takes as many code units as it can
    and gives them back one at a time; [.] matches any code unit but a line
    terminator; a pattern without anchor is tried at every start position,
    leftmost first. *)

Module Regex.

Inductive atom :=
| Lit (c : ascii)     (* the code unit itself *)
| Any                 (* the dot              *)
| GroupAnyStar.       (* a greedy group of dots, capturing *)

(** Line feed and carriage return, the line terminators among the 8-bit
    code units. *)
Definition isLineTerminator (c : ascii) : bool :=
  match c with
  | "010"%char | "013"%char => true
  | _ => false
  end.

(** Captures of the groups, in order, when the atoms match a prefix of [s]. *)
Fixpoint matchHere (r : list atom) (s : string) {struct r} : option (list string) :=
  match r with
  | [] => Some []
  | Lit c :: r' =>
      match s with
      | String a s' => if decide (a = c) then matchHere r' s' else None
      | EmptyString => None
      end
  | Any :: r' =>
      match s with
      | String a s' => if isLineTerminator a then None else matchHere r' s'
      | EmptyString => None
      end
  | GroupAnyStar :: r' =>
      (fix star (s : string) : option (list string) :=
         let stop := (λ caps, "" :: caps) <$> matchHere r' s in
         match s with
         | String a s' =>
             if isLineTerminator a then stop
             else
               match star s' with
               | Some (cap :: caps) => Some (String a cap :: caps)
               | _ => stop
               end
         | EmptyString => stop
         end) s
  end.

(** [s.match(r)] for a pattern without flags: [None] is [null], otherwise
    the captures [match[1]], [match[2]], ... *)
Fixpoint exec (r : list atom) (s : string) : option (list string) :=
  match matchHere r s with
  | Some caps => Some caps
  | None =>
      match s with
      | String _ s' => exec r s'
      | EmptyString => None
      end
  end.

Definition lits (s : string) : list atom :=
  (fix go s := match s with
               | String c s' => Lit c :: go s'
               | EmptyString => []
               end) s.

(** The pattern of [asGameId]: a group, any code unit, then [json]. *)
Definition gameFile : list atom := GroupAnyStar :: Any :: lits "json".

(** The pattern of [getSaveIds]: a group, a dash, a group, any code unit,
    then [json]. *)
Definition historyFile : list atom :=
  GroupAnyStar :: Lit "-" :: GroupAnyStar :: Any :: lits "json".

End Regex.

(** ** JSON values

    What [JSON.parse] returns. A member list keeps the members in the order
    of the text; when a name occurs twice the last occurrence is the value of
    the property, as in the language. *)

#[warnings="-register-all"]
Inductive JSON :=
| JNull
| JBool (b : bool)
| JNum (n : Z)
| JStr (s : string)
| JArr (items : list JSON)
| JObj (members : list (string * JSON)).

(** A JavaScript value read from parsed JSON: a JSON value or [undefined]. *)
Definition value : Type := option JSON.
Definition undefined : value := None.

(** ** Errors, results and promises *)

Inductive errno := ENOENT | EISDIR | ENOTDIR | EEXIST.

Inductive error :=
| SystemError (code : errno) (path : string)  (* thrown by [fs] *)
| SyntaxError                                 (* thrown by [JSON.parse] *)
| TypeError                                   (* property of [undefined] or [null] *)
| Error (message : string).                   (* [new Error(message)] *)

(** Outcome of a synchronous computation. *)
Inductive result (A : Type) :=
| Throw (e : error)
| Return (a : A).
Arguments Throw {A} e.
Arguments Return {A} a.

Inductive promise (A : Type) :=
| Resolved (a : A)
| Rejected (e : error).
Arguments Resolved {A} a.
Arguments Rejected {A} e.

Module Js.

(** Own property [k] of a member list. *)
Fixpoint member (k : string) (ms : list (string * JSON)) : value :=
  match ms with
  | [] => undefined
  | (k', v) :: ms' =>
      match member k ms' with
      | Some w => Some w
      | None => if decide (k' = k) then Some v else undefined
      end
  end.

(** [v.k] for the property names the class reads ([players], [id],
    [spectatorId], [length]): reading a property of [undefined] or [null]
    throws; arrays and strings have a [length]; numbers and booleans have
    none of these properties. *)
Definition getProp (v : value) (k : string) : result value :=
  match v with
  | None | Some JNull => Throw TypeError
  | Some (JObj ms) => Return (member k ms)
  | Some (JArr items) =>
      Return (if decide (k = "length") then Some (JNum (Z.of_nat (length items))) else undefined)
  | Some (JStr s) =>
      Return (if decide (k = "length") then Some (JNum (Z.of_nat (String.length s))) else undefined)
  | Some (JNum _) | Some (JBool _) => Return undefined
  end.

(** [items.map((p) => p.k)]: the callback is run on the elements in
    order, and the first throw ends the loop. *)
Fixpoint mapProp (k : string) (items : list JSON) : result (list value) :=
  match items with
  | [] => Return []
  | p :: items' =>
      match getProp (Some p) k with
      | Throw e => Throw e
      | Return v =>
          match mapProp k items' with
          | Throw e => Throw e
          | Return vs => Return (v :: vs)
          end
      end
  end.

(** Truthiness, as the condition of an [if] takes it. *)
Definition truthy (v : value) : bool :=
  match v with
  | None | Some JNull => false
  | Some (JBool b) => b
  | Some (JNum n) => negb (n =? 0)
  | Some (JStr s) => negb (bool_decide (s = ""))
  | Some (JArr _) | Some (JObj _) => true
  end.

End Js.

(** ** The file system *)

Inductive node :=
| File (text : string)
| Directory.

(** A directory entry as [readdirSync] reports it with [withFileTypes]. *)
Record Dirent := mkDirent { name : string; isFile : bool }.

Abbreviation FS := (gmap string node).

(** A computation of the process: it runs in a state of the file system,
    throws or returns, and leaves a state. What was written before a
    [throw] stays written. *)
Definition M (A : Type) : Type := FS → result A * FS.

Global Instance M_ret : MRet M := λ A a fs, (Return a, fs).
Global Instance M_bind : MBind M := λ A B k m fs,
  match m fs with
  | (Return a, fs') => k a fs'
  | (Throw e, fs') => (Throw e, fs')
  end.

Definition throw {A} (e : error) : M A := λ fs, (Throw e, fs).

(** A pure computation that may throw, run in the process. *)
Definition lift {A} (r : result A) : M A := λ fs, (r, fs).

(** [try { body } catch (e) { handler e }] *)
Definition tryCatch {A} (body : M A) (handler : error → M A) : M A := λ fs,
  match body fs with
  | (Return a, fs') => (Return a, fs')
  | (Throw e, fs') => handler e fs'
  end.

(** An [async] function: what its body throws rejects the promise. *)
Definition async {A} (body : M A) : M (promise A) := λ fs,
  match body fs with
  | (Return a, fs') => (Return (Resolved a), fs')
  | (Throw e, fs') => (Return (Rejected e), fs')
  end.

(** [await p] inside an [async] body. *)
Definition await {A} (p : promise A) : M A :=
  match p with
  | Resolved a => mret a
  | Rejected e => throw e
  end.

(** [p.then(callback)]: the continuation runs on the resolved value, and
    what it throws rejects the new promise. Continuations are run where the
    promise is made: the store has a single writer, and no other code of the
    process is interleaved. *)
Definition andThen {A B} (p : promise A) (callback : A → M B) : M (promise B) :=
  match p with
  | Resolved a => async (callback a)
  | Rejected e => mret (Rejected e)
  end.

(** [for (const x of l) body], threading the loop's local state. *)
Fixpoint forEach {A S} (body : S → A → M S) (acc : S) (l : list A) : M S :=
  match l with
  | [] => mret acc
  | x :: l' => acc' ← body acc x; forEach body acc' l'
  end.

Module Path.

(** [dirnameGo p] is the part of [p] before its last slash, if it has one. *)
Fixpoint dirnameGo (p : string) : option string :=
  match p with
  | EmptyString => None
  | String c r =>
      match dirnameGo r with
      | Some d => Some (String c d)
      | None => if decide (c = "/"%char) then Some "" else None
      end
  end.

(** The directory that holds the entry [p]. *)
Definition dirname (p : string) : string :=
  match dirnameGo p with
  | Some EmptyString => "/"
  | Some d => d
  | None => "."
  end.

(** [path.resolve(folder, entry)] for an absolute, normalized [folder]
    other than the root and an [entry] that is one path component: the
    class resolves [history], a snapshot name and a history name, in
    [dbFolder] and in [historyFolder]. *)
Definition resolve (folder entry : string) : string :=
  folder +:+ "/" +:+ entry.

(** The name under which [p] is listed in [folder], if [p] is an entry
    of [folder]. *)
Definition entryOf (folder p : string) : option string :=
  match Str.stripPrefix (folder +:+ "/") p with
  | Some n => if bool_decide (n = "") || Str.contains "/" n then None else Some n
  | None => None
  end.

End Path.

Module Fs.

Definition existsSync (p : string) : M bool := λ fs,
  (Return (bool_decide (is_Some (fs !! p))), fs).

Definition readFileSync (p : string) : M string := λ fs,
  match fs !! p with
  | Some (File text) => (Return text, fs)
  | Some Directory => (Throw (SystemError EISDIR p), fs)
  | None => (Throw (SystemError ENOENT p), fs)
  end.

(** Why a regular file cannot be created or replaced at [p], if it
    cannot: its directory is missing or is a file, or [p] is a directory. *)
Definition writeError (fs : FS) (p : string) : option error :=
  match fs !! Path.dirname p with
  | None => Some (SystemError ENOENT p)
  | Some (File _) => Some (SystemError ENOTDIR p)
  | Some Directory =>
      match fs !! p with
      | Some Directory => Some (SystemError EISDIR p)
      | _ => None
      end
  end.

(** Replaces the whole content of [p], creating the file if needed. *)
Definition writeFileSync (p text : string) : M unit := λ fs,
  match writeError fs p with
  | Some e => (Throw e, fs)
  | None => (Return (), <[p := File text]> fs)
  end.

Definition copyFileSync (src dest : string) : M unit :=
  text ← readFileSync src; writeFileSync dest text.

Definition unlinkSync (p : string) : M unit := λ fs,
  match fs !! p with
  | Some (File _) => (Return (), delete p fs)
  | Some Directory => (Throw (SystemError EISDIR p), fs)
  | None => (Throw (SystemError ENOENT p), fs)
  end.

Definition mkdirSync (p : string) : M unit := λ fs,
  match fs !! p with
  | Some _ => (Throw (SystemError EEXIST p), fs)
  | None =>
      match fs !! Path.dirname p with
      | Some Directory => (Return (), <[p := Directory]> fs)
      | Some (File _) => (Throw (SystemError ENOTDIR p), fs)
      | None => (Throw (SystemError ENOENT p), fs)
      end
  end.

Definition dirent (folder : string) (e : string * node) : option Dirent :=
  n ← Path.entryOf folder e.1;
  Some (mkDirent n (match e.2 with File _ => true | Directory => false end)).

(** The entries of [folder]. The order in which a directory is enumerated
    is the system's; here it is the order of [map_to_list]. *)
Definition readdirSync (folder : string) : M (list Dirent) := λ fs,
  match fs !! folder with
  | Some Directory => (Return (omap (dirent folder) (map_to_list fs)), fs)
  | Some (File _) => (Throw (SystemError ENOTDIR folder), fs)
  | None => (Throw (SystemError ENOENT folder), fs)
  end.

End Fs.

(** ** The data the store is given *)

Definition GameId : Type := string.
Definition PlayerId : Type := string.
Definition SpectatorId : Type := string.

(** Modelled from the spec: the interface [SerializedGame], declared in
    [../SerializedGame], which is not among the sources. The data model
    names the game's [id] and [lastSaveId], the list of players and the
    optional spectator id; what else a serialized game or player carries is
    kept as further members. *)
Record SerializedPlayer := mkSerializedPlayer {
  player_id : PlayerId;
  player_rest : list (string * JSON)
}.

Record SerializedGame := mkSerializedGame {
  sg_id : GameId;
  sg_lastSaveId : Z;
  sg_players : list SerializedPlayer;
  sg_spectatorId : option SpectatorId;
  sg_rest : list (string * JSON)
}.

(** The object handed to [JSON.stringify], as a JSON value. *)
Definition playerJSON (p : SerializedPlayer) : JSON :=
  JObj (("id", JStr (player_id p)) :: player_rest p).

Definition gameJSON (g : SerializedGame) : JSON :=
  JObj (("id", JStr (sg_id g))
        :: ("lastSaveId", JNum (sg_lastSaveId g))
        :: ("players", JArr (playerJSON <$> sg_players g))
        :: from_option (λ s, [("spectatorId", JStr s)]) [] (sg_spectatorId g)
        ++ sg_rest g).

(** Modelled from the spec: the class [Game], declared in [../Game], which
    is not among the sources. The store reads its [id] and [lastSaveId],
    calls [serialize()] and writes [lastSaveId]; the rest of the engine's
    state is [engine]. *)
Record Game (Engine : Type) := mkGame {
  id : GameId;
  lastSaveId : Z;
  engine : Engine
}.
Arguments mkGame {Engine} id lastSaveId engine.
Arguments id {Engine} g.
Arguments lastSaveId {Engine} g.
Arguments engine {Engine} g.

(** [{gameId, participantIds}] *)
Record GameIdLedger := mkLedger {
  gameId : GameId;
  participantIds : list value
}.

(** ** The class *)

(** The two [readonly] fields. *)
Record LocalFilesystem := mkLocalFilesystem {
  dbFolder : string;
  historyFolder : string
}.

(** [constructor(dbFolder)] *)
Definition new (dbFolder : string) : LocalFilesystem :=
  {| dbFolder := dbFolder; historyFolder := Path.resolve dbFolder "history" |}.

Section Store.

(** The functions of the platform and of the engine that the class calls:
    the recognizer of game ids [isGameId] (in [common/Types]),
    [JSON.parse] ([None] when it throws its [SyntaxError]),
    [JSON.stringify(_, null, 2)] and [Game.serialize]. *)
Variable isGameId : string → bool.
Variable JSON_parse : string → option JSON.
Variable JSON_stringify : JSON → string.
Variable Engine : Type.
Variable serialize : Game Engine → result SerializedGame.

Variable this : LocalFilesystem.

Definition parse (text : string) : M JSON :=
  match JSON_parse text with
  | Some v => mret v
  | None => throw SyntaxError
  end.

Definition initialize : M (promise unit) :=
  dbExists ← Fs.existsSync (dbFolder this);
  _ ← (if negb dbExists then Fs.mkdirSync (dbFolder this) else mret ());
  historyExists ← Fs.existsSync (historyFolder this);
  _ ← (if negb historyExists then Fs.mkdirSync (historyFolder this) else mret ());
  mret (Resolved ()).

Definition filename (gameId : string) : string :=
  Path.resolve (dbFolder this) (gameId +:+ ".json").

Definition historyFilename (gameId : string) (saveId : number) : string :=
  let saveIdString := Str.padStart 5 "0" (Num.toString saveId) in
  Path.resolve (historyFolder this) (gameId +:+ "-" +:+ saveIdString +:+ ".json").

Definition saveSerializedGame (serializedGame : SerializedGame) : M unit :=
  let text := JSON_stringify (gameJSON serializedGame) in
  _ ← Fs.writeFileSync (filename (sg_id serializedGame)) text;
  Fs.writeFileSync
    (historyFilename (sg_id serializedGame) (Int (sg_lastSaveId serializedGame))) text.

(** [saveGame] changes the game object of its caller. The object is part
    of the state next to the file system: the method is run on the object
    and a file system, and leaves both. *)
Definition saveGame (game : Game Engine) (fs : FS)
  : result (promise unit) * Game Engine * FS :=
  match (serializedGame ← lift (serialize game);
         saveSerializedGame serializedGame) fs with
  | (Return _, fs') =>
      (Return (Resolved ()),
       mkGame (id game) (Num.incr (lastSaveId game)) (engine game), fs')
  | (Throw e, fs') => (Throw e, game, fs')
  end.

Definition getGame (game_id : GameId) : M (promise JSON) :=
  tryCatch
    (text ← Fs.readFileSync (filename game_id);
     serializedGame ← parse text;
     mret (Resolved serializedGame))
    (λ e, throw e).

Definition getSaveIds (gameId : GameId) : M (promise (list number)) :=
  entries ← Fs.readdirSync (historyFolder this);
  results ← forEach (λ (results : list number) dirent,
    if Str.startsWith (gameId +:+ "-") (name dirent) && isFile dirent then
      match Regex.exec Regex.historyFile (name dirent) with
      | Some [_; saveIdAsString] => mret (results ++ [Num.Number saveIdAsString])
      | _ => mret results
      end
    else mret results) [] entries;
  mret (Resolved results).

Definition getGameVersion (gameId : GameId) (saveId : number) : M (promise JSON) :=
  tryCatch
    (text ← Fs.readFileSync (historyFilename gameId saveId);
     serializedGame ← parse text;
     mret (Resolved serializedGame))
    (λ e, mret (Rejected (Error
       ("Game " +:+ gameId +:+ " not found at save_id " +:+ Num.toString saveId)))).

Definition asGameId (dirent : Dirent) : option GameId :=
  if negb (isFile dirent) then None
  else
    match Regex.exec Regex.gameFile (name dirent) with
    | Some [result1] => if isGameId result1 then Some result1 else None
    | _ => None
    end.

Definition getGameIds : M (promise (list GameId)) :=
  entries ← Fs.readdirSync (dbFolder this);
  gameIds ← forEach (λ (gameIds : list GameId) dirent,
    match asGameId dirent with
    | Some gameId => mret (gameIds ++ [gameId])
    | None => mret gameIds
    end) [] entries;
  mret (Resolved gameIds).

(** [gameIds.find((gId) => gId === gameId && existsSync(...))] *)
Fixpoint findGame (gameId : GameId) (gameIds : list GameId) : M (option GameId) :=
  match gameIds with
  | [] => mret None
  | gId :: rest =>
      if decide (gId = gameId) then
        there ← Fs.existsSync (historyFilename gameId (Int 0));
        if there : bool then mret (Some gId) else findGame gameId rest
      else findGame gameId rest
  end.

Definition getPlayerCount (gameId : GameId) : M (promise value) :=
  async (
    gameIds ← getGameIds ≫= await;
    found ← findGame gameId gameIds;
    match found with
    | None => throw (Error (gameId +:+ " not found"))
    | Some _ =>
        text ← Fs.readFileSync (historyFilename gameId (Int 0));
        serializedGame ← parse text;
        players ← lift (Js.getProp (Some serializedGame) "players");
        lift (Js.getProp players "length")
    end).

Definition loadCloneableGame (gameId : GameId) : M (promise JSON) :=
  getGameVersion gameId (Int 0).

Definition restoreGame (gameId : GameId) (saveId : number) : M (promise JSON) :=
  async (
    _ ← Fs.copyFileSync (historyFilename gameId saveId) (filename gameId);
    getGame gameId ≫= await).

Definition deleteVersion (gameId : GameId) (version : number) : M unit :=
  Fs.unlinkSync (historyFilename gameId version).

(** [saveIds.slice(-rollbackCount)] for a positive count: the last
    [rollbackCount] elements, all of them when there are fewer. *)
Definition sliceLast {A} (rollbackCount : Z) (l : list A) : list A :=
  drop (length l - Z.to_nat rollbackCount) l.

Definition deleteGameNbrSaves (gameId : GameId) (rollbackCount : Z) : M (promise unit) :=
  if rollbackCount <=? 0 then mret (Resolved ())
  else
    saveIds ← getSaveIds gameId;
    andThen saveIds (λ saveIds,
      forEach (λ _ version, deleteVersion gameId version) ()
              (sliceLast rollbackCount saveIds)).

(** [game.players.map((p) => p.id)]: only an array has [map]. *)
Definition playerIds (game : JSON) : result (list value) :=
  match Js.getProp (Some game) "players" with
  | Throw e => Throw e
  | Return (Some (JArr players)) => Js.mapProp "id" players
  | Return _ => Throw TypeError
  end.

(** The callback of the [forEach] of [getParticipants], on the array
    [gameIds] it pushes to. *)
Definition addParticipants (gameIds : list GameIdLedger) (dirent : Dirent)
  : M (list GameIdLedger) :=
  match asGameId dirent with
  | Some gameId =>
      text ← Fs.readFileSync (filename gameId);
      game ← parse text;
      participantIds ← lift (playerIds game);
      spectatorId ← lift (Js.getProp (Some game) "spectatorId");
      let participantIds :=
        if Js.truthy spectatorId then participantIds ++ [spectatorId]
        else participantIds in
      mret (gameIds ++ [mkLedger gameId participantIds])
  | None => mret gameIds
  end.

Definition getParticipants : M (promise (list GameIdLedger)) :=
  entries ← Fs.readdirSync (dbFolder this);
  gameIds ← forEach addParticipants [] entries;
  mret (Resolved gameIds).

(** [entry.participantIds.includes(id)] *)
Definition includes (ids : list value) (id : string) : bool :=
  existsb (λ v, match v with
                | Some (JStr s) => bool_decide (s = id)
                | _ => false
                end) ids.

Definition getGameId (id : string) : M (promise GameId) :=
  async (
    participants ← getParticipants ≫= await;
    match List.find (λ entry, includes (participantIds entry) id) participants with
    | Some entry => mret (gameId entry)
    | None => throw (Error ("participant id " +:+ id +:+ " not found"))
    end).

End Store.

(** ** The methods this backend leaves empty or refuses *)

Section Unsupported.

Variable Engine : Type.
Variable this : LocalFilesystem.

Definition restoreReferenceGame (_gameId : GameId) : M (promise (Game Engine)) :=
  throw (Error "Does not work").

Definition saveGameResults {GameOptions Score : Type} (_gameId : GameId)
    (_players _generations : Z) (_gameOptions : GameOptions) (_scores : list Score)
  : M unit :=
  mret ().

Definition cleanGame (_gameId : GameId) : M (promise unit) := mret (Resolved ()).

Definition purgeUnfinishedGames : M (promise unit) := mret (Resolved ()).

Definition storeParticipants (_entry : GameIdLedger) : M (promise unit) :=
  mret (Resolved ()).

(** The object [stats()] resolves to, as the list of its members. *)
Definition stats : M (promise (list (string * string))) :=
  mret (Resolved [("type", "Local Filesystem");
                  ("path", dbFolder this);
                  ("history_path", historyFolder this)]).

End Unsupported.

(** ** The requirement of a card ([CardRequirement])

    The enumeration [RequirementType] is declared in [./RequirementType],
    which is not among the sources: it is a parameter, with its two members
    the class names and the text a template literal makes of a member.
    Amounts are integers. *)

Module Card.

Section CardRequirement.

Variable RequirementType : Type.
Context `{EqDecision RequirementType}.
Variable OXYGEN TEMPERATURE : RequirementType.
Variable typeText : RequirementType → string.

Record CardRequirement := mkCardRequirement {
  type : RequirementType;
  amount : Z;
  isMax : bool
}.

(** [constructor(type, amount, isMax)] *)
Definition new (type : RequirementType) (amount : Z) (isMax : bool) : CardRequirement :=
  mkCardRequirement type amount isMax.

(** The degree sign, code unit 176. *)
Definition degree : string := String "176" "".

Definition toString (this : CardRequirement) : string :=
  if decide (type this = OXYGEN) then Num.toString (Int (amount this)) +:+ "%"
  else if decide (type this = TEMPERATURE) then Num.toString (Int (amount this)) +:+ degree
  else Num.toString (Int (amount this)).

Definition getRequirementText (this : CardRequirement) : string :=
  let prefix := if isMax this then "max" else "" in
  let parsedAmount := toString this in
  prefix +:+ " " +:+ parsedAmount +:+ " " +:+ typeText (type this).

End CardRequirement.

End Card.

(** ** A JSON reader and printer

    A small instance of [JSON.parse] and [JSON.stringify(_, null, 2)], on
    which the methods can be run. It reads and prints the JSON texts whose
    numbers are integers and whose strings are made of 8-bit code units. *)

Module MiniJSON.

Fixpoint skipWs (s : string) : string :=
  match s with
  | String c s' =>
      if bool_decide (c = " "%char ∨ c = "009"%char ∨ c = "010"%char ∨ c = "013"%char)
      then skipWs s' else s
  | EmptyString => ""
  end.

Fixpoint spanDigits (s : string) : string * string :=
  match s with
  | String c s' =>
      if Num.isDigit c then let '(d, r) := spanDigits s' in (String c d, r)
      else ("", s)
  | EmptyString => ("", "")
  end.

(** [int] of the grammar: no leading zero, no fraction and no exponent. *)
Definition readNat (s : string) : option (Z * string) :=
  let '(d, r) := spanDigits s in
  match d, r with
  | EmptyString, _ => None
  | String "0" (String _ _), _ => None
  | _, String "." _ | _, String "e" _ | _, String "E" _ => None
  | _, _ => (λ v, (v, r)) <$> Num.digitsValue d 0
  end.

Definition hexValue (c : ascii) : option N :=
  let n := N_of_ascii c in
  if ((48 <=? n) && (n <=? 57))%N then Some (n - 48)%N
  else if ((97 <=? n) && (n <=? 102))%N then Some (n - 87)%N
  else if ((65 <=? n) && (n <=? 70))%N then Some (n - 55)%N
  else None.

(** The characters of a string after its opening quote, up to the closing
    one. Code unit 34 is the quote and 92 the backslash. *)
Fixpoint readChars (s : string) : option (string * string) :=
  match s with
  | EmptyString => None
  | String "034" r => Some ("", r)
  | String "092" (String e r) =>
      let cons (c : ascii) (r : string) :=
        (λ '(t, r'), (String c t, r')) <$> readChars r in
      match e with
      | "034" => cons "034" r
      | "092" => cons "092" r
      | "/" => cons "/" r
      | "b" => cons "008" r
      | "f" => cons "012" r
      | "n" => cons "010" r
      | "r" => cons "013" r
      | "t" => cons "009" r
      | "u" =>
          match r with
          | String "0" (String "0" (String h (String l r'))) =>
              match hexValue h, hexValue l with
              | Some a, Some b => cons (ascii_of_N (16 * a + b)) r'
              | _, _ => None
              end
          | _ => None
          end
      | _ => None
      end%char
  | String c r =>
      if (N_of_ascii c <? 32)%N then None
      else (λ '(t, r'), (String c t, r')) <$> readChars r
  end.

Fixpoint readValue (fuel : nat) (s : string) : option (JSON * string) :=
  match fuel with
  | O => None
  | S fuel' =>
      match skipWs s with
      | String "034" r => (λ '(t, r'), (JStr t, r')) <$> readChars r
      | String "[" r =>
          match skipWs r with
          | String "]" r' => Some (JArr [], r')
          | r' => (λ '(vs, r''), (JArr vs, r'')) <$> readItems fuel' r'
          end
      | String "{" r =>
          match skipWs r with
          | String "}" r' => Some (JObj [], r')
          | r' => (λ '(ms, r''), (JObj ms, r'')) <$> readMembers fuel' r'
          end
      | String "-" r => (λ '(v, r'), (JNum (- v), r')) <$> readNat r
      | String _ _ as t =>
          match Str.stripPrefix "null" t, Str.stripPrefix "true" t, Str.stripPrefix "false" t with
          | Some r', _, _ => Some (JNull, r')
          | _, Some r', _ => Some (JBool true, r')
          | _, _, Some r' => Some (JBool false, r')
          | _, _, _ => (λ '(v, r'), (JNum v, r')) <$> readNat t
          end
      | EmptyString => None
      end
  end
with readItems (fuel : nat) (s : string) : option (list JSON * string) :=
  match fuel with
  | O => None
  | S fuel' =>
      match readValue fuel' s with
      | Some (v, r) =>
          match skipWs r with
          | String "," r' => (λ '(vs, r''), (v :: vs, r'')) <$> readItems fuel' r'
          | String "]" r' => Some ([v], r')
          | _ => None
          end
      | None => None
      end
  end
with readMembers (fuel : nat) (s : string) : option (list (string * JSON) * string) :=
  match fuel with
  | O => None
  | S fuel' =>
      match skipWs s with
      | String "034" r =>
          match readChars r with
          | Some (k, r1) =>
              match skipWs r1 with
              | String ":" r2 =>
                  match readValue fuel' r2 with
                  | Some (v, r3) =>
                      match skipWs r3 with
                      | String "," r4 =>
                          (λ '(ms, r5), ((k, v) :: ms, r5)) <$> readMembers fuel' r4
                      | String "}" r4 => Some ([(k, v)], r4)
                      | _ => None
                      end
                  | None => None
                  end
              | _ => None
              end
          | None => None
          end
      | _ => None
      end
  end.

(** [JSON.parse(text)]; [None] stands for its [SyntaxError]. *)
Definition parse (text : string) : option JSON :=
  match readValue (2 * String.length text + 2) text with
  | Some (v, r) => if bool_decide (skipWs r = "") then Some v else None
  | None => None
  end.

Definition hexDigit (n : N) : ascii :=
  if (n <? 10)%N then ascii_of_N (48 + n) else ascii_of_N (87 + n).

Definition escaped (c : ascii) (rest : string) : string :=
  String "092" (String c rest).

Fixpoint escape (s : string) : string :=
  match s with
  | EmptyString => ""
  | String c r =>
      let rest := escape r in
      match c with
      | "034" => escaped "034" rest
      | "092" => escaped "092" rest
      | "008" => escaped "b" rest
      | "012" => escaped "f" rest
      | "010" => escaped "n" rest
      | "013" => escaped "r" rest
      | "009" => escaped "t" rest
      | _ =>
          if (N_of_ascii c <? 32)%N then
            escaped "u" ("00" +:+ String (hexDigit (N_of_ascii c / 16))
                                   (String (hexDigit (N_of_ascii c mod 16)) rest))
          else String c rest
      end%char
  end.

Definition quote (s : string) : string :=
  String "034" (escape s +:+ String "034" "").

Definition newline : string := String "010"%char "".

(** [v] printed at the indentation [indent], two blanks deeper per level. *)
Fixpoint print (indent : string) (v : JSON) : string :=
  let inner := indent +:+ "  " in
  match v with
  | JNull => "null"
  | JBool true => "true"
  | JBool false => "false"
  | JNum n => Num.toString (Int n)
  | JStr s => quote s
  | JArr [] => "[]"
  | JArr items =>
      "[" +:+ newline +:+
      (fix go (vs : list JSON) : string :=
         match vs with
         | [] => ""
         | v :: vs' =>
             inner +:+ print inner v +:+
             match vs' with
             | [] => newline
             | _ => "," +:+ newline +:+ go vs'
             end
         end) items +:+ indent +:+ "]"
  | JObj [] => "{}"
  | JObj members =>
      "{" +:+ newline +:+
      (fix go (ms : list (string * JSON)) : string :=
         match ms with
         | [] => ""
         | (k, v) :: ms' =>
             inner +:+ quote k +:+ ": " +:+ print inner v +:+
             match ms' with
             | [] => newline
             | _ => "," +:+ newline +:+ go ms'
             end
         end) members +:+ indent +:+ "}"
  end.

(** [JSON.stringify(v, null, 2)] *)
Definition stringify (v : JSON) : string := print "" v.

End MiniJSON.

(** ** A store to run the methods on

    Game ids that start with [g], the engine state of a game reduced to what
    it serializes, a store under [/srv/db], and a few of its states. *)

Module Demo.

Definition isGameId (s : string) : bool := Str.startsWith "g" s.

Definition Engine : Type := SerializedGame.

Definition serialize (g : Game Engine) : result SerializedGame :=
  Return (mkSerializedGame (id g) (lastSaveId g) (sg_players (engine g))
            (sg_spectatorId (engine g)) (sg_rest (engine g))).

Definition store : LocalFilesystem := new "/srv/db".

Definition twoPlayers : Engine :=
  mkSerializedGame "" 0
    [mkSerializedPlayer "p1" []; mkSerializedPlayer "p2" [("name", JStr "Ann")]]
    (Some "s1") [("phase", JStr "research")].

Definition game (gid : GameId) (saveId : Z) : Game Engine :=
  mkGame gid saveId twoPlayers.

(** What [serialize] makes of [game gid saveId], and its text. *)
Definition serialized (gid : GameId) (saveId : Z) : SerializedGame :=
  mkSerializedGame gid saveId (sg_players twoPlayers)
    (sg_spectatorId twoPlayers) (sg_rest twoPlayers).

Definition text (gid : GameId) (saveId : Z) : string :=
  MiniJSON.stringify (gameJSON (serialized gid saveId)).

Definition save (g : Game Engine) (fs : FS) : FS :=
  (saveGame MiniJSON.stringify Engine serialize store g fs).2.

(** Before [initialize]: only the parent of the db folder exists. *)
Definition bare : FS := {[ "/srv" := Directory ]}.

(** After [initialize]. *)
Definition empty : FS := (initialize store bare).2.

(** After game [g1] was saved twice. *)
Definition saved : FS := save (game "g1" 1) (save (game "g1" 0) empty).

(** [saved], with the snapshot and the first history file left holding a
    text that is not JSON. *)
Definition damaged : FS :=
  <[ "/srv/db/g1.json" := File "{ id: " ]>
    (<[ "/srv/db/history/g1-00000.json" := File "{ id: " ]> saved).


(** After game [g1-x] was saved at save id 3 in an empty store. *)
Definition dashed : FS := save (game "g1-x" 3) empty.

End Demo.

(** ** The vocabulary of the properties *)

Section Vocabulary.

Variable isGameId : string → bool.
Variable JSON_parse : string → option JSON.
Variable JSON_stringify : JSON → string.
Variable Engine : Type.
Variable serialize : Game Engine → result SerializedGame.
Variable this : LocalFilesystem.

(** The error of [getGameVersion]. *)
Definition notFoundAt (g : GameId) (s : number) : error :=
  Error ("Game " +:+ g +:+ " not found at save_id " +:+ Num.toString s).

(** The text [saveGame] writes for a serialized game. *)
Definition textOf (serializedGame : SerializedGame) : string :=
  JSON_stringify (gameJSON serializedGame).

(** The ways [saveGame game] can fail in [fs]: [serialize] throws, the
    snapshot cannot be written, or the history file cannot be written
    once the snapshot is. *)
Definition saveFails (game : Game Engine) (fs : FS) : Prop :=
  (∃ e, serialize game = Throw e)
  ∨ ∃ sg, serialize game = Return sg
          ∧ (is_Some (Fs.writeError fs (filename this (sg_id sg)))
             ∨ is_Some (Fs.writeError
                          (<[filename this (sg_id sg) := File (textOf sg)]> fs)
                          (historyFilename this (sg_id sg) (Int (sg_lastSaveId sg))))).

(** The content a call yields: the value its promise resolves to, if it
    does not fail. *)
Definition content {A} (r : result (promise A)) : option A :=
  match r with
  | Return (Resolved a) => Some a
  | _ => None
  end.

(** The game ids of the db folder, in the order of its enumeration. *)
Definition listedGameIds (fs : FS) : list GameId :=
  omap (asGameId isGameId) (omap (Fs.dirent (dbFolder this)) (map_to_list fs)).

(** The save id [getSaveIds g] reads from a directory entry, if it takes
    the entry for a history file of [g]. *)
Definition historySaveId (g : GameId) (dirent : Dirent) : option number :=
  if Str.startsWith (g +:+ "-") (name dirent) && isFile dirent then
    match Regex.exec Regex.historyFile (name dirent) with
    | Some [_; saveIdAsString] => Some (Num.Number saveIdAsString)
    | _ => None
    end
  else None.

(** The error of [getPlayerCount]. *)
Definition notFound (g : GameId) : error := Error (g +:+ " not found").

(** What [getPlayerCount] makes of the first history entry once the game
    is found. *)
Definition countPlayers (g : GameId) (fs : FS) : promise value :=
  match fs !! historyFilename this g (Int 0) with
  | Some (File text) =>
      match JSON_parse text with
      | Some game =>
          match Js.getProp (Some game) "players" with
          | Return players =>
              match Js.getProp players "length" with
              | Return n => Resolved n
              | Throw e => Rejected e
              end
          | Throw e => Rejected e
          end
      | None => Rejected SyntaxError
      end
  | Some Directory => Rejected (SystemError EISDIR (historyFilename this g (Int 0)))
  | None => Rejected (SystemError ENOENT (historyFilename this g (Int 0)))
  end.

(** [ids] are the [id] properties of [players], in order. *)
Definition idsOf (players : list JSON) (ids : list value) : Prop :=
  Forall2 (λ p i, Js.getProp (Some p) "id" = Return i) players ids.

(** [ids] is what the snapshot of [g] in [fs] says of its participants:
    the ids of its players in their stored order, then its spectator id
    unless that is absent or falsy. *)
Definition snapshotParticipants (fs : FS) (g : GameId) (ids : list value) : Prop :=
  ∃ text game players playerIds spectatorId,
    fs !! filename this g = Some (File text)
    ∧ JSON_parse text = Some game
    ∧ Js.getProp (Some game) "players" = Return (Some (JArr players))
    ∧ idsOf players playerIds
    ∧ Js.getProp (Some game) "spectatorId" = Return spectatorId
    ∧ ids = playerIds ++ (if Js.truthy spectatorId then [spectatorId] else []).

End Vocabulary.

(** A name of one line and one path component: it holds no line terminator
    and no slash. *)
Definition plainName (g : string) : bool :=
  negb (Str.contains "/" g) && Str.all (λ c, negb (Regex.isLineTerminator c)) g.

(** [k] zeros. *)
Fixpoint zeros (k : nat) : string :=
  match k with
  | O => ""
  | S k' => String "0" (zeros k')
  end.


(** The save id as it stands in the name of a history file. *)
Definition saveIdString (saveId : Z) : string :=
  Str.padStart 5 "0" (Num.toString (Int saveId)).

(** A computation that leaves every file system as it finds it. *)
Definition readOnly {A} (m : M A) : Prop := ∀ fs, (m fs).2 = fs.


(** * Properties *)

(** Unfolds the sequencing of computations. *)
Ltac run :=
  unfold async, await, tryCatch, lift, throw, mbind, M_bind, mret, M_ret in *;
  simpl in *.

Global Arguments Js.getProp : simpl never.

(** ** Strings and decimal numerals *)

Section Strings.

Lemma app_cons (a : ascii) (s t : string) : String a s +:+ t = String a (s +:+ t).
Proof. reflexivity. Qed.

Lemma app_empty_l (s : string) : "" +:+ s = s.
Proof. reflexivity. Qed.

Lemma app_nonempty (s t : string) (c : ascii) : s +:+ String c t ≠ "".
Proof. by destruct s. Qed.

Lemma app_assoc_s (s t u : string) : (s +:+ t) +:+ u = s +:+ (t +:+ u).
Proof. induction s as [|a s IH]; [done|]. by rewrite !app_cons, IH. Qed.

Lemma app_empty_r (s : string) : s +:+ "" = s.
Proof. induction s as [|a s IH]; [done|]. by rewrite app_cons, IH. Qed.


Lemma all_app (p : ascii → bool) (s t : string) :
  Str.all p (s +:+ t) = Str.all p s && Str.all p t.
Proof.
  induction s as [|a s IH]; [done|]. rewrite app_cons. simpl.
  by rewrite IH, andb_assoc.
Qed.

Lemma contains_app (c : ascii) (s t : string) :
  Str.contains c (s +:+ t) = Str.contains c s || Str.contains c t.
Proof.
  induction s as [|a s IH]; [done|]. rewrite app_cons. simpl.
  by destruct (decide (a = c)).
Qed.

Lemma all_contains (p : ascii → bool) (c : ascii) (s : string) :
  Str.all p s = true → p c = false → Str.contains c s = false.
Proof.
  intros Hs Hc. induction s as [|a s IH]; [done|]. simpl in *.
  apply andb_true_iff in Hs as [Ha Hs].
  destruct (decide (a = c)) as [->|]; [congruence | auto].
Qed.

(** A string splits in one way only at the last occurrence of [c] ... *)
Lemma split_last (c : ascii) (x1 x2 y1 y2 : string) :
  Str.contains c y1 = false → Str.contains c y2 = false →
  x1 +:+ String c y1 = x2 +:+ String c y2 → x1 = x2 ∧ y1 = y2.
Proof.
  intros H1 H2. revert x2. induction x1 as [|a x1 IH]; intros [|b x2] E.
  - by injection E.
  - rewrite app_cons in E. injection E as -> E. subst y1.
    rewrite contains_app in H1. simpl in H1.
    rewrite decide_True in H1 by done. by rewrite orb_true_r in H1.
  - rewrite app_cons in E. injection E as -> E. subst y2.
    rewrite contains_app in H2. simpl in H2.
    rewrite decide_True in H2 by done. by rewrite orb_true_r in H2.
  - rewrite !app_cons in E. injection E as -> E.
    destruct (IH _ E) as [-> ->]. done.
Qed.

(** ... and at the first one. *)
Lemma split_first (c : ascii) (x1 x2 y1 y2 : string) :
  Str.contains c x1 = false → Str.contains c x2 = false →
  x1 +:+ String c y1 = x2 +:+ String c y2 → x1 = x2 ∧ y1 = y2.
Proof.
  revert x2. induction x1 as [|a x1 IH]; intros [|b x2] H1 H2 E.
  - by injection E.
  - rewrite app_cons in E. injection E as <- E. simpl in H2.
    by rewrite decide_True in H2.
  - rewrite app_cons in E. injection E as -> E. simpl in H1.
    by rewrite decide_True in H1.
  - rewrite !app_cons in E. injection E as -> E. simpl in H1, H2.
    destruct (decide (b = c)); [done|].
    destruct (IH _ H1 H2 E) as [-> ->]. done.
Qed.

(** *** Order *)



(** *** Digits *)

Lemma digit_cases (d : Z) :
  0 ≤ d < 10 →
  d = 0 ∨ d = 1 ∨ d = 2 ∨ d = 3 ∨ d = 4 ∨ d = 5 ∨ d = 6 ∨ d = 7 ∨ d = 8 ∨ d = 9.
Proof. lia. Qed.

Lemma digitChar_spec (d : Z) :
  0 ≤ d < 10 →
  Num.isDigit (Num.digitChar d) = true ∧ Num.digitValue (Num.digitChar d) = d
  ∧ Ascii.is_space (Num.digitChar d) = false.
Proof.
  intros H. destruct (digit_cases d H) as [->|[->|[->|[->|[->|[->|[->|[->|[->| ->]]]]]]]]];
    by vm_compute.
Qed.


Lemma digitsValue_app (s t : string) (acc : Z) :
  Num.digitsValue (s +:+ t) acc
  = match Num.digitsValue s acc with
    | Some v => Num.digitsValue t v
    | None => None
    end.
Proof.
  revert acc. induction s as [|a s IH]; intros acc; [done|].
  rewrite app_cons. simpl. destruct (Num.isDigit a); [apply IH | done].
Qed.

(** *** [decimal] *)

(** The last digit of a numeral is that of the units. *)
Lemma decimalGo_acc (fuel : nat) (n : Z) (acc : string) :
  Num.decimalGo fuel n acc = Num.decimalGo fuel n "" +:+ acc.
Proof.
  revert n acc. induction fuel as [|f IH]; intros n acc; [done|]. simpl.
  destruct (n <? 10); [done|].
  rewrite IH, (IH _ (String _ "")). by rewrite app_assoc_s.
Qed.

Lemma decimalGo_step (f : nat) (n : Z) :
  Num.decimalGo (S f) n ""
  = (if n <? 10 then "" else Num.decimalGo f (n / 10) "")
    +:+ String (Num.digitChar (n mod 10)) "".
Proof. simpl. destruct (n <? 10); [done|]. apply decimalGo_acc. Qed.

(** With enough fuel the numeral is made of digits, it is not empty, and
    its value is the number. *)
Lemma decimalGo_value (f : nat) (n : Z) :
  0 ≤ n < 10 ^ Z.of_nat (S f) →
  Str.all Num.isDigit (Num.decimalGo (S f) n "") = true
  ∧ Num.decimalGo (S f) n "" ≠ ""
  ∧ Num.digitsValue (Num.decimalGo (S f) n "") 0 = Some n.
Proof.
  revert n. induction f as [|f IH]; intros n Hn; rewrite decimalGo_step.
  - change (10 ^ Z.of_nat 1) with 10 in Hn.
    destruct (Z.ltb_spec n 10); [|lia].
    rewrite Z.mod_small, app_empty_l by lia.
    destruct (digitChar_spec n ltac:(lia)) as (Hd & Hv & _).
    simpl. rewrite Hd, Hv. split; [done|]. split; [done|]. f_equal; lia.
  - destruct (digitChar_spec (n mod 10) ltac:(apply Z.mod_pos_bound; lia)) as (Hd & Hv & _).
    destruct (Z.ltb_spec n 10).
    + rewrite app_empty_l. simpl. rewrite Hd, Hv. rewrite Z.mod_small by lia.
      split; [done|]. split; [done|]. f_equal; lia.
    + assert (0 ≤ n / 10 < 10 ^ Z.of_nat (S f)) as Hq.
      { split; [apply Z.div_pos; lia|].
        apply Z.div_lt_upper_bound; [lia|].
        rewrite (Nat2Z.inj_succ (S f)), Z.pow_succ_r in Hn by lia. lia. }
      destruct (IH _ Hq) as (Hall & Hne & Hval).
      split; [|split].
      * rewrite all_app, Hall. simpl. by rewrite Hd.
      * apply app_nonempty.
      * rewrite digitsValue_app, Hval. simpl. rewrite Hd, Hv.
        f_equal. pose proof (Z.div_mod n 10). lia.
Qed.

Lemma decimal_fuel (n : Z) : 0 ≤ n → n < 10 ^ Z.of_nat (S (Z.to_nat (Z.log2 n))).
Proof.
  intros Hn. rewrite Nat2Z.inj_succ, Z2Nat.id by apply Z.log2_nonneg.
  destruct (decide (n = 0)) as [->|]; [done|].
  destruct (Z.log2_spec n ltac:(lia)) as [_ H].
  eapply Z.lt_le_trans; [exact H|].
  apply Z.pow_le_mono_l. lia.
Qed.

Lemma decimal_spec (n : Z) :
  0 ≤ n →
  Str.all Num.isDigit (Num.decimal n) = true
  ∧ Num.decimal n ≠ ""
  ∧ Num.digitsValue (Num.decimal n) 0 = Some n.
Proof. intros Hn. apply decimalGo_value. split; [done | by apply decimal_fuel]. Qed.

End Strings.

(** ** The names of history files *)

Section HistoryNames.

Lemma isDigit_other (c : ascii) :
  Num.isDigit c = true →
  Ascii.is_space c = false ∧ Regex.isLineTerminator c = false
  ∧ c ≠ "-"%char ∧ c ≠ "+"%char ∧ c ≠ "."%char ∧ c ≠ "/"%char.
Proof.
  destruct c as [[] [] [] [] [] [] [] []]; vm_compute; intros H;
    try discriminate H; repeat split; discriminate.
Qed.

Lemma filler_zeros (k : nat) :
  Str.filler k "0" "" = zeros k ∧ Str.filler k "0" "0" = zeros k.
Proof.
  induction k as [|k [IH1 IH2]]; [done|]. simpl. by rewrite IH1.
Qed.

Lemma padStart_zeros (w : nat) (s : string) :
  Str.padStart w "0" s = zeros (w - String.length s) +:+ s.
Proof.
  unfold Str.padStart. case_decide as H.
  - by replace (w - String.length s)%nat with 0%nat by lia.
  - by rewrite (proj2 (filler_zeros _)).
Qed.

Lemma zeros_spec (k : nat) (s : string) :
  Str.all Num.isDigit (zeros k) = true
  ∧ Num.digitsValue (zeros k +:+ s) 0 = Num.digitsValue s 0
  ∧ String.length (zeros k) = k.
Proof.
  induction k as [|k (IH1 & IH2 & IH3)]; [done|].
  simpl. rewrite IH3. split; [done|]. split; [exact IH2 | done].
Qed.

Lemma trimStart_id (s : string) :
  Str.all Num.isDigit s = true → Str.trimStart s = s.
Proof.
  destruct s as [|c s]; [done|]. simpl. intros [Hc _]%andb_true_iff.
  by rewrite (proj1 (isDigit_other c Hc)).
Qed.

Lemma trimEnd_id (s : string) :
  Str.all Num.isDigit s = true → Str.trimEnd s = s.
Proof.
  induction s as [|c s IH]; [done|]. simpl. intros [Hc Hs]%andb_true_iff.
  rewrite (IH Hs). destruct s; [|done].
  by rewrite (proj1 (isDigit_other c Hc)).
Qed.

(** [Number] reads a string of digits as its value. *)
Lemma Number_digits (s : string) (v : Z) :
  Str.all Num.isDigit s = true → s ≠ "" → Num.digitsValue s 0 = Some v →
  Num.Number s = Int v.
Proof.
  intros Hs Hne Hv. unfold Num.Number, Str.trim.
  rewrite (trimStart_id s Hs), (trimEnd_id s Hs).
  destruct s as [|c s]; [done|].
  pose proof Hs as [Hc _]%andb_true_iff.
  destruct (isDigit_other c Hc) as (_ & _ & Hm & Hp & _).
  rewrite !decide_False by done. unfold Num.unsignedValue. by rewrite Hv.
Qed.

Lemma saveIdString_eq (s : Z) :
  0 ≤ s → saveIdString s = zeros (5 - String.length (Num.decimal s)) +:+ Num.decimal s.
Proof.
  intros Hs. unfold saveIdString, Num.toString.
  destruct (Z.ltb_spec s 0); [lia|]. apply padStart_zeros.
Qed.

(** The padded save id is made of digits and reads back as the save id. *)
Lemma saveIdString_spec (s : Z) :
  0 ≤ s →
  Str.all Num.isDigit (saveIdString s) = true
  ∧ saveIdString s ≠ ""
  ∧ Num.Number (saveIdString s) = Int s.
Proof.
  intros Hs. rewrite (saveIdString_eq s Hs).
  destruct (decimal_spec s Hs) as (Hall & Hne & Hval).
  destruct (zeros_spec (5 - String.length (Num.decimal s)) (Num.decimal s))
    as (Hz & Hzv & _).
  assert (Str.all Num.isDigit
            (zeros (5 - String.length (Num.decimal s)) +:+ Num.decimal s) = true) as Hd
    by (by rewrite all_app, Hz, Hall).
  split; [done|].
  assert (zeros (5 - String.length (Num.decimal s)) +:+ Num.decimal s ≠ "") as Hn.
  { destruct (Num.decimal s); [done|]. apply app_nonempty. }
  split; [done|].
  apply Number_digits; [done | done |]. by rewrite Hzv.
Qed.






End HistoryNames.

(** ** Matching file names and listing folders *)

Section Listing.

Lemma matchHere_group (r : list Regex.atom) (a : ascii) (s : string) :
  Regex.matchHere (Regex.GroupAnyStar :: r) (String a s)
  = let stop := (λ caps, "" :: caps) <$> Regex.matchHere r (String a s) in
    if Regex.isLineTerminator a then stop
    else match Regex.matchHere (Regex.GroupAnyStar :: r) s with
         | Some (cap :: caps) => Some (String a cap :: caps)
         | _ => stop
         end.
Proof. reflexivity. Qed.

(** The pattern is tried at the start of the subject first. *)
Lemma exec_first (r : list Regex.atom) (s : string) (caps : list string) :
  Regex.matchHere r s = Some caps → Regex.exec r s = Some caps.
Proof. intros H. destruct s; unfold Regex.exec; by rewrite H. Qed.

(** A greedy group takes a whole line [g] when the rest of the pattern
    matches behind it. *)
Lemma matchHere_group_line (r : list Regex.atom) (g rest : string) (caps : list string) :
  plainName g = true →
  Regex.matchHere (Regex.GroupAnyStar :: r) rest = Some ("" :: caps) →
  Regex.matchHere (Regex.GroupAnyStar :: r) (g +:+ rest) = Some (g :: caps).
Proof.
  unfold plainName. intros Hg Hrest. apply andb_true_iff in Hg as [_ Hg].
  induction g as [|a g IH]; [done|].
  simpl in Hg. apply andb_true_iff in Hg as [Ha Hg].
  rewrite app_cons, matchHere_group, (IH Hg).
  by destruct (Regex.isLineTerminator a).
Qed.

(** A group followed by a dash does not match where there is no dash. *)
Lemma matchHere_no_dash (r : list Regex.atom) (s : string) :
  Str.contains "-" s = false →
  Regex.matchHere (Regex.GroupAnyStar :: Regex.Lit "-" :: r) s = None.
Proof.
  induction s as [|a s IH]; [done|]. simpl Str.contains.
  destruct (decide (a = "-"%char)) as [|Ha]; [done|]. intros Hs.
  rewrite matchHere_group, (IH Hs). simpl.
  rewrite decide_False by done. by destruct (Regex.isLineTerminator a).
Qed.

Lemma all_digits_plain (d : string) :
  Str.all Num.isDigit d = true → plainName d = true.
Proof.
  intros Hd. unfold plainName.
  rewrite (all_contains Num.isDigit "/" d Hd) by done. simpl.
  induction d as [|c d IH]; [done|]. simpl in *.
  apply andb_true_iff in Hd as [Hc Hd].
  destruct (isDigit_other c Hc) as (_ & -> & _). simpl. auto.
Qed.

(** The name of a snapshot file gives back the game id ... *)
Lemma exec_gameFile (g : string) :
  plainName g = true → Regex.exec Regex.gameFile (g +:+ ".json") = Some [g].
Proof.
  intros Hg.
  assert (Regex.matchHere Regex.gameFile (g +:+ ".json") = Some [g]) as H
    by (by apply matchHere_group_line).
  by apply exec_first.
Qed.

(** ... and the name of a history file the game id and the digits. *)
Lemma exec_historyFile (g d : string) :
  plainName g = true → Str.all Num.isDigit d = true →
  Regex.exec Regex.historyFile (g +:+ "-" +:+ d +:+ ".json") = Some [g; d].
Proof.
  intros Hg Hd.
  assert (Regex.matchHere Regex.historyFile (g +:+ "-" +:+ d +:+ ".json") = Some [g; d]) as H.
  { apply matchHere_group_line; [done|].
    change ("-" +:+ d +:+ ".json") with (String "-" (d +:+ ".json")).
    rewrite matchHere_group, matchHere_no_dash.
    2:{ rewrite contains_app, (all_contains Num.isDigit "-" d Hd); done. }
    change (Regex.isLineTerminator "-") with false. cbv iota.
    change (Regex.matchHere (Regex.Lit "-" :: ?r) (String "-" ?s))
      with (Regex.matchHere r s).
    change (Regex.matchHere (Regex.Lit "-" :: Regex.GroupAnyStar :: Regex.Any :: Regex.lits "json")
              (String "-" (d +:+ ".json")))
      with (Regex.matchHere Regex.gameFile (d +:+ ".json")).
    rewrite (matchHere_group_line _ d ".json" []); [done | by apply all_digits_plain | done]. }
  by apply exec_first.
Qed.

Lemma stripPrefix_app (p r : string) : Str.stripPrefix p (p +:+ r) = Some r.
Proof.
  induction p as [|a p IH]; [by destruct r|].
  rewrite app_cons. simpl. by rewrite decide_True.
Qed.

Lemma startsWith_app (p r : string) : Str.startsWith p (p +:+ r) = true.
Proof.
  induction p as [|a p IH]; [by destruct r|].
  rewrite app_cons. simpl. by rewrite decide_True.
Qed.

(** A file of a folder is listed by [readdirSync] under its name. *)
Lemma dirent_listed (folder n text : string) (fs : FS) :
  fs !! Path.resolve folder n = Some (File text) →
  n ≠ "" → Str.contains "/" n = false →
  mkDirent n true ∈ omap (Fs.dirent folder) (map_to_list fs).
Proof.
  intros Hf Hne Hslash. apply list_elem_of_omap.
  exists (Path.resolve folder n, File text). split.
  - by apply elem_of_map_to_list.
  - unfold Fs.dirent, Path.entryOf, Path.resolve. simpl.
    rewrite <- app_assoc_s, stripPrefix_app. simpl.
    rewrite bool_decide_eq_false_2 by done. by rewrite Hslash.
Qed.

Lemma plainName_entry (g suffix : string) :
  plainName g = true → Str.contains "/" suffix = false →
  Str.contains "/" (g +:+ suffix) = false.
Proof.
  unfold plainName. intros [Hg _]%andb_true_iff Hs.
  rewrite contains_app, Hs. by destruct (Str.contains "/" g).
Qed.

End Listing.

(** ** Reading the current snapshot and a history entry *)

Section Reading.

Variable JSON_parse : string → option JSON.
Variable this : LocalFilesystem.

Lemma readFileSync_file (p text : string) (fs : FS) :
  fs !! p = Some (File text) → Fs.readFileSync p fs = (Return text, fs).
Proof. intros H. unfold Fs.readFileSync. by rewrite H. Qed.

Lemma readFileSync_missing (p : string) (fs : FS) :
  fs !! p = None → Fs.readFileSync p fs = (Throw (SystemError ENOENT p), fs).
Proof. intros H. unfold Fs.readFileSync. by rewrite H. Qed.

Lemma getGame_eq (g : GameId) (fs : FS) :
  getGame JSON_parse this g fs =
  match fs !! filename this g with
  | Some (File text) =>
      match JSON_parse text with
      | Some v => (Return (Resolved v), fs)
      | None => (Throw SyntaxError, fs)
      end
  | Some Directory => (Throw (SystemError EISDIR (filename this g)), fs)
  | None => (Throw (SystemError ENOENT (filename this g)), fs)
  end.
Proof.
  unfold getGame, parse, Fs.readFileSync. run.
  destruct (fs !! filename this g) as [[text|]|]; try reflexivity.
  destruct (JSON_parse text); reflexivity.
Qed.

Lemma getGameVersion_eq (g : GameId) (s : number) (fs : FS) :
  getGameVersion JSON_parse this g s fs =
  match fs !! historyFilename this g s with
  | Some (File text) =>
      match JSON_parse text with
      | Some v => (Return (Resolved v), fs)
      | None => (Return (Rejected (notFoundAt g s)), fs)
      end
  | _ => (Return (Rejected (notFoundAt g s)), fs)
  end.
Proof.
  unfold getGameVersion, parse, Fs.readFileSync, notFoundAt. run.
  destruct (fs !! historyFilename this g s) as [[text|]|]; try reflexivity.
  destruct (JSON_parse text); reflexivity.
Qed.


(** C6, as the code has it. [getGameVersion g s] never throws and leaves
    the file system as it was. It resolves to the parsed text of the
    history file of [(g, s)] when that file can be read and parsed.
    It is rejected with the error "Game g not found at save_id s" exactly
    when there is no such file or its text does not parse: every
    failure inside the [try] is reported this way. *)
Theorem getGameVersion_outcomes (g : GameId) (s : number) (fs : FS) :
  (∀ text v, fs !! historyFilename this g s = Some (File text) →
             JSON_parse text = Some v →
     getGameVersion JSON_parse this g s fs = (Return (Resolved v), fs))
  ∧ (getGameVersion JSON_parse this g s fs = (Return (Rejected (notFoundAt g s)), fs)
     ↔ ¬ ∃ text v, fs !! historyFilename this g s = Some (File text)
                   ∧ JSON_parse text = Some v).
Proof.
  rewrite getGameVersion_eq. split.
  - by intros text v -> ->.
  - destruct (fs !! historyFilename this g s) as [[text|]|] eqn:E.
    + destruct (JSON_parse text) as [v|] eqn:P.
      * split; [intros [=]|]. intros H. destruct H. eauto.
      * split; [|done]. intros _ (text' & v & [= <-] & P'). congruence.
    + split; [|done]. by intros _ (text & v & [=] & _).
    + split; [|done]. by intros _ (text & v & [=] & _).
Qed.

End Reading.


(** C6 as stated fails: the history file of [(g1, 0)] is present in
    [Demo.damaged], and [getGameVersion] still reports "not found", because
    its text does not parse. *)
Lemma getGameVersion_present_counterexample :
  Demo.damaged !! historyFilename Demo.store "g1" (Int 0) = Some (File "{ id: ")
  ∧ (getGameVersion MiniJSON.parse Demo.store "g1" (Int 0) Demo.damaged).1
    = Return (Rejected (Error "Game g1 not found at save_id 0")).
Proof. split; vm_compute; reflexivity. Qed.

Lemma getGameVersion_outcomes_witness :
  getGameVersion MiniJSON.parse Demo.store "g1" (Int 1) Demo.saved
  = (Return (Resolved (gameJSON (Demo.serialized "g1" 1))), Demo.saved).
Proof.
  apply (proj1 (getGameVersion_outcomes MiniJSON.parse Demo.store "g1" (Int 1) Demo.saved)
           (Demo.text "g1" 1)); vm_compute; reflexivity.
Defined.

(** ** Saving *)

Section Saving.

Variable JSON_stringify : JSON → string.
Variable Engine : Type.
Variable serialize : Game Engine → result SerializedGame.
Variable this : LocalFilesystem.

Local Abbreviation textOf' := (textOf JSON_stringify).
Local Abbreviation saveFails' := (saveFails JSON_stringify Engine serialize this).

Lemma writeFileSync_ok (p text : string) (fs : FS) :
  Fs.writeError fs p = None →
  Fs.writeFileSync p text fs = (Return (), <[p := File text]> fs).
Proof. intros H. unfold Fs.writeFileSync. by rewrite H. Qed.


Lemma writeError_None (fs : FS) (p : string) :
  Fs.writeError fs p = None ↔
  fs !! Path.dirname p = Some Directory ∧ fs !! p ≠ Some Directory.
Proof.
  unfold Fs.writeError.
  destruct (fs !! Path.dirname p) as [[?|]|]; [by split; [|intros []]| |by split; [|intros []]].
  destruct (fs !! p) as [[?|]|]; split; try done; by intros [].
Qed.

(** Writing a file does not stand in the way of another write that was
    possible before. *)
Lemma writeError_insert (fs : FS) (p q text : string) :
  Fs.writeError fs p = None → Fs.writeError fs q = None →
  Fs.writeError (<[p := File text]> fs) q = None.
Proof.
  rewrite !writeError_None. intros [Hd Hp] [Hd' Hq]. split.
  - rewrite lookup_insert_ne; [done|]. intros ->. congruence.
  - destruct (decide (p = q)) as [->|].
    + by rewrite lookup_insert_eq.
    + by rewrite lookup_insert_ne.
Qed.




(** C10. Let [saveGame game] leave the object [game']. If the
    serialization or one of the two writes fails, [saveGame] throws and
    [game'] is [game]: [lastSaveId] is unchanged. And if [lastSaveId]
    has changed, then [serialize] returned and both writes, the snapshot's
    first, succeeded before the increment. *)
Theorem saveGame_failure_keeps_counter
    (game game' : Game Engine) (fs fs' : FS) (r : result (promise unit)) :
  saveGame JSON_stringify Engine serialize this game fs = (r, game', fs') →
  (saveFails' game fs → (∃ e, r = Throw e) ∧ game' = game)
  ∧ (lastSaveId game' ≠ lastSaveId game →
       ¬ saveFails' game fs
       ∧ r = Return (Resolved ())
       ∧ lastSaveId game' = lastSaveId game + 1).
Proof.
  unfold saveFails, saveGame, saveSerializedGame, Fs.writeFileSync, textOf. run.
  destruct (serialize game) as [e0|sg] eqn:Hser.
  { intros [= <- <- <-]. split; [eauto|]. intros []. reflexivity. }
  destruct (Fs.writeError fs (filename this (sg_id sg))) as [e1|] eqn:Hw1.
  { intros [= <- <- <-]. split; [eauto|]. intros []. reflexivity. }
  destruct (Fs.writeError _ (historyFilename this (sg_id sg) _)) as [e2|] eqn:Hw2.
  { intros [= <- <- <-]. split; [eauto|]. intros []. reflexivity. }
  intros [= <- <- <-]. split.
  - intros [[e [=]] | (sg' & [= <-] & [[e He] | [e He]])]; congruence.
  - intros _. split; [|done].
    intros [[e [=]] | (sg' & [= <-] & [[e He] | [e He]])]; congruence.
Qed.

End Saving.

Lemma triple_eta {A B C} (x : A * B * C) : x = (x.1.1, x.1.2, x.2).
Proof. by destruct x as [[? ?] ?]. Qed.


(** C10 where the store was not initialized: the snapshot cannot be
    written, and the game keeps its save id. *)
Lemma saveGame_failure_keeps_counter_witness :
  let out := saveGame MiniJSON.stringify Demo.Engine Demo.serialize Demo.store
               (Demo.game "g1" 0) Demo.bare in
  (∃ e, out.1.1 = Throw e) ∧ out.1.2 = Demo.game "g1" 0.
Proof.
  intros out.
  apply (proj1 (saveGame_failure_keeps_counter MiniJSON.stringify Demo.Engine
                  Demo.serialize Demo.store (Demo.game "g1" 0) out.1.2
                  Demo.bare out.2 out.1.1 (triple_eta out))).
  right. exists (Demo.serialized "g1" 0). split; [reflexivity|].
  left. vm_compute. eauto.
Defined.

(** ** Restoring and trimming the history *)

Section Restoring.

Variable JSON_parse : string → option JSON.
Variable this : LocalFilesystem.

Lemma restoreGame_eq (g : GameId) (s : number) (text : string) (fs : FS) :
  fs !! historyFilename this g s = Some (File text) →
  Fs.writeError fs (filename this g) = None →
  restoreGame JSON_parse this g s fs =
  (Return (match JSON_parse text with
           | Some v => Resolved v
           | None => Rejected SyntaxError
           end),
   <[filename this g := File text]> fs).
Proof.
  intros Hh Hw. unfold restoreGame, Fs.copyFileSync. run.
  rewrite (readFileSync_file _ _ _ Hh), (writeFileSync_ok _ _ _ Hw).
  rewrite getGame_eq, lookup_insert_eq.
  by destruct (JSON_parse text).
Qed.

(** C2. Let the history entry of [(g, s)] exist, in a store where the
    snapshot file of [g] can be written (the db folder exists and no
    directory has the snapshot's name, see [writeError_entry]). After
    [restoreGame g s] the snapshot file holds the text of the history
    entry, the entry itself is as before, and [getGame g] yields the same
    content as [getGameVersion g s]: the same value when the text parses,
    and no value from either when it does not. *)
Theorem restoreGame_then_getGame (g : GameId) (s : number) (text : string) (fs : FS) :
  fs !! historyFilename this g s = Some (File text) →
  Fs.writeError fs (filename this g) = None →
  let fs' := (restoreGame JSON_parse this g s fs).2 in
  fs' !! filename this g = Some (File text)
  ∧ fs' !! historyFilename this g s = Some (File text)
  ∧ content (getGame JSON_parse this g fs').1
    = content (getGameVersion JSON_parse this g s fs').1
  ∧ content (getGame JSON_parse this g fs').1
    = content (getGameVersion JSON_parse this g s fs).1
  ∧ (∀ v, JSON_parse text = Some v →
          (restoreGame JSON_parse this g s fs).1 = Return (Resolved v)
          ∧ (getGame JSON_parse this g fs').1 = Return (Resolved v)
          ∧ (getGameVersion JSON_parse this g s fs').1 = Return (Resolved v)).
Proof.
  intros Hh Hw. rewrite (restoreGame_eq _ _ _ _ Hh Hw). simpl.
  assert (Hh' : <[filename this g := File text]> fs !! historyFilename this g s
                = Some (File text)).
  { destruct (decide (filename this g = historyFilename this g s)) as [->|].
    - by rewrite lookup_insert_eq.
    - by rewrite lookup_insert_ne. }
  rewrite !getGame_eq, !getGameVersion_eq, lookup_insert_eq, Hh', Hh.
  split; [done|]. split; [done|].
  split; [by destruct (JSON_parse text)|].
  split; [by destruct (JSON_parse text)|].
  intros v Hv. by rewrite Hv.
Qed.

(** C8. With a rollback count that is zero or negative,
    [deleteGameNbrSaves] resolves and the file system is what it was: no
    history entry is deleted and nothing is thrown or rejected. *)
Theorem deleteGameNbrSaves_nonpositive (g : GameId) (rollbackCount : Z) (fs : FS) :
  rollbackCount ≤ 0 →
  deleteGameNbrSaves this g rollbackCount fs = (Return (Resolved ()), fs).
Proof.
  intros H. unfold deleteGameNbrSaves.
  destruct (Z.leb_spec rollbackCount 0); [reflexivity | lia].
Qed.

End Restoring.

(** C2 on the store [Demo.saved]: restoring the first save of [g1]. *)
Lemma restoreGame_then_getGame_witness :
  let fs' := (restoreGame MiniJSON.parse Demo.store "g1" (Int 0) Demo.saved).2 in
  fs' !! "/srv/db/g1.json" = Some (File (Demo.text "g1" 0))
  ∧ (getGame MiniJSON.parse Demo.store "g1" fs').1
    = Return (Resolved (gameJSON (Demo.serialized "g1" 0)))
  ∧ (getGameVersion MiniJSON.parse Demo.store "g1" (Int 0) fs').1
    = Return (Resolved (gameJSON (Demo.serialized "g1" 0))).
Proof.
  intros fs'.
  pose proof (restoreGame_then_getGame MiniJSON.parse Demo.store "g1" (Int 0)
                (Demo.text "g1" 0) Demo.saved
                ltac:(vm_compute; reflexivity) ltac:(vm_compute; reflexivity))
    as (H1 & _ & _ & _ & H5).
  destruct (H5 (gameJSON (Demo.serialized "g1" 0)) ltac:(vm_compute; reflexivity))
    as (_ & H6 & H7).
  exact (conj H1 (conj H6 H7)).
Defined.

(** C8 on the store [Demo.saved], with the counts [0] and [-2]. *)
Lemma deleteGameNbrSaves_nonpositive_witness :
  deleteGameNbrSaves Demo.store "g1" 0 Demo.saved = (Return (Resolved ()), Demo.saved)
  ∧ deleteGameNbrSaves Demo.store "g1" (-2) Demo.saved = (Return (Resolved ()), Demo.saved).
Proof.
  split; apply deleteGameNbrSaves_nonpositive; lia.
Defined.

(** ** Scanning the db folder *)

Section Scanning.

Variable isGameId : string → bool.
Variable JSON_parse : string → option JSON.
Variable this : LocalFilesystem.

Lemma bind_run {A B} (m : M A) (k : A → M B) (fs : FS) :
  (m ≫= k) fs
  = match m fs with
    | (Return a, fs') => k a fs'
    | (Throw e, fs') => (Throw e, fs')
    end.
Proof. reflexivity. Qed.

(** A loop that only collects: its result is the collected list and the
    file system is not touched. *)
Lemma forEach_collect {A B} (body : list B → A → M (list B)) (f : A → option B) :
  (∀ acc x fs, body acc x fs = (Return (acc ++ option_list (f x)), fs)) →
  ∀ l acc fs, forEach body acc l fs = (Return (acc ++ omap f l), fs).
Proof.
  intros Hbody l. induction l as [|x l IH]; intros acc fs; simpl.
  - by rewrite app_nil_r.
  - rewrite bind_run, Hbody, IH, <- app_assoc.
    by destruct (f x).
Qed.

Lemma getGameIds_eq (fs : FS) :
  fs !! dbFolder this = Some Directory →
  getGameIds isGameId this fs = (Return (Resolved (listedGameIds isGameId this fs)), fs).
Proof.
  intros Hd. unfold getGameIds. rewrite bind_run.
  unfold Fs.readdirSync. rewrite Hd.
  rewrite bind_run, (forEach_collect _ (asGameId isGameId)); [done|].
  intros acc d fs'. destruct (asGameId isGameId d); [done|]. by rewrite app_nil_r.
Qed.

Lemma findGame_eq (g : GameId) (ids : list GameId) (fs : FS) :
  findGame this g ids fs
  = (Return (if bool_decide (g ∈ ids ∧ is_Some (fs !! historyFilename this g (Int 0)))
             then Some g else None), fs).
Proof.
  induction ids as [|gId ids IH]; simpl.
  - reflexivity.
  - destruct (decide (gId = g)) as [->|Hne].
    + unfold Fs.existsSync. run.
      destruct (bool_decide (is_Some (fs !! historyFilename this g (Int 0)))) eqn:E.
      * apply bool_decide_eq_true in E.
        rewrite bool_decide_eq_true_2; [done|]. split; [left|done].
      * apply bool_decide_eq_false in E. rewrite IH.
        rewrite !bool_decide_eq_false_2; [done| |]; by intros [_ ?].
    + rewrite IH. apply f_equal2; [|done]. f_equal.
      rewrite (bool_decide_ext
                 (g ∈ gId :: ids ∧ is_Some (fs !! historyFilename this g (Int 0)))
                 (g ∈ ids ∧ is_Some (fs !! historyFilename this g (Int 0)))); [done|].
      rewrite elem_of_cons. split.
      * intros [[Heq|Hin] Hs]; [congruence | done].
      * intros [Hin Hs]. split; [by right | done].
Qed.


Lemma getPlayerCount_eq (g : GameId) (fs : FS) :
  fs !! dbFolder this = Some Directory →
  getPlayerCount isGameId JSON_parse this g fs
  = (Return (if bool_decide (g ∈ listedGameIds isGameId this fs
                              ∧ is_Some (fs !! historyFilename this g (Int 0)))
             then countPlayers JSON_parse this g fs else Rejected (notFound g)), fs).
Proof.
  intros Hd. unfold getPlayerCount, countPlayers, async.
  rewrite !bind_run, (getGameIds_eq _ Hd). simpl.
  rewrite bind_run, findGame_eq.
  case_bool_decide; [|done].
  unfold Fs.readFileSync, parse. run.
  destruct (fs !! historyFilename this g (Int 0)) as [[text|]|]; try done.
  destruct (JSON_parse text) as [game|]; [|done].
  destruct (Js.getProp (Some game) "players") as [e|players]; [done|].
  by destruct (Js.getProp players "length").
Qed.


(** The snapshot file of a game lists the game. *)
Lemma snapshot_listed (g : GameId) (text : string) (fs : FS) :
  plainName g = true → isGameId g = true →
  fs !! filename this g = Some (File text) →
  g ∈ listedGameIds isGameId this fs.
Proof.
  intros Hg Hid Hf. apply list_elem_of_omap.
  exists (mkDirent (g +:+ ".json") true). split.
  - apply (dirent_listed _ _ text); [done | by destruct g | by apply plainName_entry].
  - unfold asGameId. simpl. by rewrite (exec_gameFile g Hg), Hid.
Qed.


End Scanning.



(** ** The participants of the stored games *)

Section Participants.

Variable isGameId : string → bool.
Variable JSON_parse : string → option JSON.
Variable this : LocalFilesystem.

Local Abbreviation step := (addParticipants isGameId JSON_parse this).
Local Abbreviation snapshot := (snapshotParticipants JSON_parse this).

Lemma mapProp_spec (players : list JSON) (ids : list value) :
  Js.mapProp "id" players = Return ids ↔ idsOf players ids.
Proof.
  unfold idsOf. revert ids. induction players as [|p ps IH]; intros ids; simpl.
  - split; [intros [= <-]; constructor | by inversion 1].
  - destruct (Js.getProp (Some p) "id") as [e'|i] eqn:Ep.
    + split; [done|]. inversion 1; congruence.
    + destruct (Js.mapProp "id" ps) as [e'|rest] eqn:Er.
      * split; [done|]. inversion 1 as [|? ? ? ? ? Hrest]; subst.
        apply IH in Hrest. discriminate.
      * split.
        -- intros [= <-]. constructor; [done|]. by apply IH.
        -- inversion 1 as [|? ? ? ? ? Hrest]; subst.
           apply IH in Hrest. congruence.
Qed.

Lemma playerIds_spec (game : JSON) (ids : list value) :
  playerIds game = Return ids ↔
  ∃ players, Js.getProp (Some game) "players" = Return (Some (JArr players))
             ∧ idsOf players ids.
Proof.
  unfold playerIds.
  destruct (Js.getProp (Some game) "players") as [e|[[| | | |players|]|]] eqn:E;
    try (split; [done | by intros (? & [=] & _)]).
  rewrite mapProp_spec.
  split; [eauto | by intros (? & [= <-] & ?)].
Qed.

Lemma getParticipants_unfold (fs : FS) :
  fs !! dbFolder this = Some Directory →
  getParticipants isGameId JSON_parse this fs
  = match forEach step []
            (omap (Fs.dirent (dbFolder this)) (map_to_list fs)) fs with
    | (Return gameIds, fs') => (Return (Resolved gameIds), fs')
    | (Throw e, fs') => (Throw e, fs')
    end.
Proof.
  intros Hd. unfold getParticipants. rewrite bind_run.
  unfold Fs.readdirSync. rewrite Hd. rewrite bind_run. reflexivity.
Qed.

(** One step of the loop on a game: it adds the entry the snapshot
    describes, or throws. *)
Lemma addParticipants_game (acc : list GameIdLedger) (d : Dirent) (g : GameId) (fs : FS) :
  asGameId isGameId d = Some g →
  (∀ out fs', step acc d fs = (Return out, fs') →
     fs' = fs ∧ ∃ ids, out = acc ++ [mkLedger g ids] ∧ snapshot fs g ids)
  ∧ (∀ ids, snapshot fs g ids →
       step acc d fs = (Return (acc ++ [mkLedger g ids]), fs)).
Proof.
  intros Hg. unfold addParticipants, snapshotParticipants. rewrite Hg.
  unfold Fs.readFileSync, parse. run.
  destruct (fs !! filename this g) as [[text|]|] eqn:Hf.
  2,3: split; [done | by intros ids (? & ? & ? & ? & ? & [=] & _)].
  destruct (JSON_parse text) as [game|] eqn:Hp.
  2: split; [done | intros ids (? & ? & ? & ? & ? & [= <-] & ? & _); congruence].
  destruct (playerIds game) as [e|pids] eqn:Hpl.
  { split; [done|]. intros ids (? & ? & ps & pids & ? & [= <-] & ? & Hps & Hids & _).
    assert (playerIds game = Return pids) as Hc; [|congruence].
    apply playerIds_spec. exists ps. split; congruence. }
  apply playerIds_spec in Hpl as (players & Hps & Hids).
  destruct (Js.getProp (Some game) "spectatorId") as [e|sp] eqn:Hsp.
  { split; [done|]. intros ids (? & ? & ? & ? & ? & [= <-] & ? & _ & _ & ? & _).
    congruence. }
  split.
  - intros out fs' [= <- <-]. split; [done|].
    exists (pids ++ (if Js.truthy sp then [sp] else [])). split.
    + destruct (Js.truthy sp); [done|]. by rewrite app_nil_r.
    + exists text, game, players, pids, sp. done.
  - intros ids (text' & game' & players' & pids' & sp' & [= <-] & Hp' & Hps' & Hids' & Hsp' & ->).
    assert (game' = game) as -> by congruence.
    assert (players' = players) as -> by congruence.
    assert (sp' = sp) as -> by congruence.
    assert (pids' = pids) as ->.
    { clear -Hids Hids'. unfold idsOf in *. revert pids' Hids'.
      induction Hids; intros pids' Hids'; inversion Hids'; subst; [done|].
      f_equal; [congruence | eauto]. }
    destruct (Js.truthy sp); [done|]. by rewrite app_nil_r.
Qed.

(** The loop over the directory entries. *)
Lemma forEach_addParticipants (l : list Dirent) (acc : list GameIdLedger) (fs : FS) :
  (∀ out fs', forEach step acc l fs = (Return out, fs') →
     fs' = fs ∧ ∃ new, out = acc ++ new
                       ∧ gameId <$> new = omap (asGameId isGameId) l
                       ∧ Forall (λ e, snapshot fs (gameId e) (participantIds e)) new)
  ∧ ((∀ g, g ∈ omap (asGameId isGameId) l → ∃ ids, snapshot fs g ids) →
     ∃ out, forEach step acc l fs = (Return out, fs)).
Proof.
  revert acc. induction l as [|d l IH]; intros acc; simpl.
  { split.
    - intros out fs' [= <- <-]. split; [done|]. exists []. by rewrite app_nil_r.
    - intros _. by exists acc. }
  rewrite bind_run.
  destruct (asGameId isGameId d) as [g|] eqn:Hg.
  - destruct (addParticipants_game acc d g fs Hg) as [Hstep Hrun]. split.
    + destruct (step acc d fs) as [[e|acc'] fs1] eqn:Ha; [done|].
      destruct (Hstep acc' fs1 eq_refl) as (-> & ids & -> & Hsnap).
      intros out fs' Hloop.
      destruct (proj1 (IH _) out fs' Hloop) as (-> & new & -> & Hnames & Hall).
      split; [done|]. exists (mkLedger g ids :: new).
      split; [by rewrite <- app_assoc|]. split.
      * rewrite fmap_cons. simpl. f_equal. exact Hnames.
      * by constructor.
    + intros Hall. destruct (Hall g) as [ids Hids]; [left|].
      rewrite (Hrun ids Hids). apply IH. intros g' Hg'. apply Hall. by right.
  - assert (step acc d fs = (Return acc, fs)) as ->
      by (unfold addParticipants; by rewrite Hg).
    apply IH.
Qed.

(** C9. In a store whose db folder exists, let [getParticipants] resolve
    to [entries]. Then the entries are those of the game ids listed from
    the db folder, one each and in that order, and the [participantIds]
    of each entry are the ids of the players of the game's snapshot in
    their stored order followed, last, by its spectator id, which is left
    out exactly when it is absent or falsy. And [getParticipants] does
    resolve, leaving the file system as it was, when the snapshot of
    every listed game can be read this way. *)
Theorem getParticipants_entries (fs : FS) :
  fs !! dbFolder this = Some Directory →
  (∀ entries fs',
     getParticipants isGameId JSON_parse this fs = (Return (Resolved entries), fs') →
     fs' = fs
     ∧ gameId <$> entries = listedGameIds isGameId this fs
     ∧ Forall (λ e, snapshot fs (gameId e) (participantIds e)) entries)
  ∧ ((∀ g, g ∈ listedGameIds isGameId this fs → ∃ ids, snapshot fs g ids) →
     ∃ entries,
       getParticipants isGameId JSON_parse this fs = (Return (Resolved entries), fs)).
Proof.
  intros Hd. rewrite (getParticipants_unfold _ Hd).
  destruct (forEach_addParticipants
              (omap (Fs.dirent (dbFolder this)) (map_to_list fs)) [] fs)
    as [Hsound Hruns].
  split.
  - intros entries fs'.
    destruct (forEach _ _ _ fs) as [[e|out] fs1] eqn:Hloop; [done|].
    intros [= <- <-].
    destruct (Hsound out fs1 eq_refl) as (-> & new & -> & Hn & Hall). done.
  - intros Hall. destruct (Hruns Hall) as [out ->]. eauto.
Qed.

End Participants.

(** C9 on the store [Demo.saved]: the two players of [g1], then its
    spectator. *)
Lemma getParticipants_entries_witness :
  snapshotParticipants MiniJSON.parse Demo.store Demo.saved "g1"
    [Some (JStr "p1"); Some (JStr "p2"); Some (JStr "s1")].
Proof.
  destruct (proj1 (getParticipants_entries Demo.isGameId MiniJSON.parse Demo.store
                     Demo.saved ltac:(vm_compute; reflexivity))
              [mkLedger "g1" [Some (JStr "p1"); Some (JStr "p2"); Some (JStr "s1")]]
              Demo.saved ltac:(vm_compute; reflexivity))
    as (_ & _ & Hall).
  exact (Forall_inv Hall).
Defined.

(** ** The paths of history files *)

Section HistoryPaths.

Variable this : LocalFilesystem.




End HistoryPaths.


(** Negative numbers are no save ids: their sign is a dash like the one
    that ends the game id. *)
Example historyFilename_negative :
  historyFilename Demo.store "g1" (Int (-12345))
  = historyFilename Demo.store "g1-" (Int 12345).
Proof. reflexivity. Qed.


(** ** Listing the save ids of a game *)

Section SaveIds.

Variable this : LocalFilesystem.

Lemma getSaveIds_eq (g : GameId) (fs : FS) :
  fs !! historyFolder this = Some Directory →
  getSaveIds this g fs
  = (Return (Resolved (omap (historySaveId g)
                         (omap (Fs.dirent (historyFolder this)) (map_to_list fs)))), fs).
Proof.
  intros Hd. unfold getSaveIds. rewrite bind_run.
  unfold Fs.readdirSync. rewrite Hd.
  rewrite bind_run, (forEach_collect _ (historySaveId g)); [done|].
  intros acc d fs'. unfold historySaveId.
  destruct (Str.startsWith (g +:+ "-") (name d) && isFile d); [|by rewrite app_nil_r].
  destruct (Regex.exec Regex.historyFile (name d)) as [[|? [|? [|? ?]]]|];
    try done; by rewrite app_nil_r.
Qed.

(** In a store whose history folder exists, every history file of a game
    (of a plain id, at a natural save id) gives its save id to the answer
    of [getSaveIds]. *)
Lemma getSaveIds_lists_own_saves (g : GameId) (s : Z) (text : string) (fs : FS) :
  fs !! historyFolder this = Some Directory →
  plainName g = true → 0 ≤ s →
  fs !! historyFilename this g (Int s) = Some (File text) →
  ∃ ids, getSaveIds this g fs = (Return (Resolved ids), fs) ∧ Int s ∈ ids.
Proof.
  intros Hd Hg Hs Hf. rewrite (getSaveIds_eq g fs Hd). eexists. split; [done|].
  destruct (saveIdString_spec s Hs) as (Hdigits & _ & Hnum).
  apply list_elem_of_omap.
  exists (mkDirent (g +:+ "-" +:+ saveIdString s +:+ ".json") true). split.
  - apply (dirent_listed _ _ text); [done | by destruct g |].
    apply plainName_entry; [done|].
    change ("-" +:+ saveIdString s +:+ ".json")
      with (String "-" (saveIdString s +:+ ".json")).
    simpl. rewrite contains_app, (all_contains Num.isDigit "/" _ Hdigits); done.
  - unfold historySaveId. simpl.
    rewrite <- (app_assoc_s g "-"), startsWith_app, app_assoc_s. simpl.
    by rewrite (exec_historyFile g _ Hg Hdigits), Hnum.
Qed.

End SaveIds.

(** C4 on the store [Demo.dashed]. The answer of [getSaveIds g] holds the
    save id of every history file of [g] ([getSaveIds_lists_own_saves]),
    but not only those. Game [g1-x] was saved once, at save id 3, and game
    [g1] never: the history folder holds the one file of [g1-x].
    [getSaveIds "g1"] takes that file for a save of [g1], because its name
    starts with [g1-], and answers [3]; rolling [g1] back by one save then
    tries to remove a history file that does not exist. *)
Theorem getSaveIds_counts_other_game :
  Fs.readdirSync (historyFolder Demo.store) Demo.dashed
    = (Return [mkDirent "g1-x-00003.json" true], Demo.dashed)
  ∧ historyFilename Demo.store "g1-x" (Int 3) = "/srv/db/history/g1-x-00003.json"
  ∧ getSaveIds Demo.store "g1-x" Demo.dashed = (Return (Resolved [Int 3]), Demo.dashed)
  ∧ getSaveIds Demo.store "g1" Demo.dashed = (Return (Resolved [Int 3]), Demo.dashed)
  ∧ deleteGameNbrSaves Demo.store "g1" 1 Demo.dashed
    = (Return (Rejected (SystemError ENOENT "/srv/db/history/g1-00003.json")), Demo.dashed).
Proof. repeat split; vm_compute; reflexivity. Qed.

(** * Further properties of the store *)

(** ** The queries do not write *)

Section ReadOnly.

Lemma readOnly_ret {A} (a : A) : readOnly (mret a).
Proof. by intros fs. Qed.

Lemma readOnly_throw {A} (e : error) : readOnly (throw (A := A) e).
Proof. by intros fs. Qed.

Lemma readOnly_lift {A} (r : result A) : readOnly (lift r).
Proof. by intros fs. Qed.

Lemma readOnly_bind {A B} (m : M A) (k : A → M B) :
  readOnly m → (∀ a, readOnly (k a)) → readOnly (m ≫= k).
Proof.
  intros Hm Hk fs. rewrite bind_run. specialize (Hm fs).
  destruct (m fs) as [[e|a] fs1]; simpl in *; subst; [done|]. apply Hk.
Qed.

Lemma readOnly_tryCatch {A} (body : M A) (handler : error → M A) :
  readOnly body → (∀ e, readOnly (handler e)) → readOnly (tryCatch body handler).
Proof.
  intros Hb Hh fs. unfold tryCatch. specialize (Hb fs).
  destruct (body fs) as [[e|a] fs1]; simpl in *; subst; [apply Hh | done].
Qed.

Lemma readOnly_async {A} (body : M A) : readOnly body → readOnly (async body).
Proof.
  intros Hb fs. unfold async. specialize (Hb fs).
  by destruct (body fs) as [[e|a] fs1].
Qed.

Lemma readOnly_await {A} (p : promise A) : readOnly (await p).
Proof. by destruct p. Qed.

Lemma readOnly_forEach {A S} (body : S → A → M S) (l : list A) (acc : S) :
  (∀ acc x, readOnly (body acc x)) → readOnly (forEach body acc l).
Proof.
  intros Hb. revert acc. induction l as [|x l IH]; intros acc; simpl.
  - apply readOnly_ret.
  - apply readOnly_bind; [apply Hb | intros acc'; apply IH].
Qed.

Lemma readOnly_readFileSync (p : string) : readOnly (Fs.readFileSync p).
Proof. intros fs. unfold Fs.readFileSync. by destruct (fs !! p) as [[?|]|]. Qed.

Lemma readOnly_existsSync (p : string) : readOnly (Fs.existsSync p).
Proof. by intros fs. Qed.

Lemma readOnly_readdirSync (folder : string) : readOnly (Fs.readdirSync folder).
Proof. intros fs. unfold Fs.readdirSync. by destruct (fs !! folder) as [[?|]|]. Qed.

Lemma readOnly_parse (JSON_parse : string → option JSON) (text : string) :
  readOnly (parse JSON_parse text).
Proof. unfold parse. destruct (JSON_parse text); [apply readOnly_ret | apply readOnly_throw]. Qed.

Create HintDb readOnly.
#[local] Hint Resolve readOnly_ret readOnly_throw readOnly_lift readOnly_await
  readOnly_readFileSync readOnly_existsSync readOnly_readdirSync readOnly_parse
  : readOnly.

(** Closes a goal [readOnly m] by the structure of [m]. *)
Ltac read_only :=
  repeat first
    [ apply readOnly_bind; [|intros ?]
    | apply readOnly_tryCatch; [|intros ?]
    | apply readOnly_async
    | apply readOnly_forEach; intros ? ?
    | progress eauto with readOnly
    | match goal with
      | |- readOnly (match ?x with _ => _ end) => destruct x
      | |- readOnly (if ?b then _ else _) => destruct b
      end ].

Variable isGameId : string → bool.
Variable JSON_parse : string → option JSON.
Variable this : LocalFilesystem.

Lemma readOnly_findGame (g : GameId) (ids : list GameId) :
  readOnly (findGame this g ids).
Proof. induction ids as [|gId ids IH]; simpl; read_only. Qed.

Lemma readOnly_getGame (g : GameId) : readOnly (getGame JSON_parse this g).
Proof. unfold getGame. read_only. Qed.

Lemma readOnly_getGameIds : readOnly (getGameIds isGameId this).
Proof. unfold getGameIds. read_only. Qed.

Lemma readOnly_getSaveIds (g : GameId) : readOnly (getSaveIds this g).
Proof. unfold getSaveIds. read_only. Qed.

Lemma readOnly_getParticipants : readOnly (getParticipants isGameId JSON_parse this).
Proof. unfold getParticipants, addParticipants. read_only. Qed.

(** X1. Whatever they answer, and also when they throw or are rejected, the
    methods that read the store leave the file system as it was:
    [getGame], [getGameVersion], [loadCloneableGame], [getSaveIds],
    [getGameIds], [getPlayerCount], [getParticipants] and [getGameId]. *)
Theorem queries_do_not_write (g : GameId) (s : number) (participant : string) :
  readOnly (getGame JSON_parse this g)
  ∧ readOnly (getGameVersion JSON_parse this g s)
  ∧ readOnly (loadCloneableGame JSON_parse this g)
  ∧ readOnly (getSaveIds this g)
  ∧ readOnly (getGameIds isGameId this)
  ∧ readOnly (getPlayerCount isGameId JSON_parse this g)
  ∧ readOnly (getParticipants isGameId JSON_parse this)
  ∧ readOnly (getGameId isGameId JSON_parse this participant).
Proof.
  repeat split.
  - apply readOnly_getGame.
  - unfold getGameVersion. read_only.
  - unfold loadCloneableGame, getGameVersion. read_only.
  - apply readOnly_getSaveIds.
  - apply readOnly_getGameIds.
  - unfold getPlayerCount. apply readOnly_async.
    apply readOnly_bind; [apply readOnly_bind; [apply readOnly_getGameIds | read_only]|].
    intros ids. apply readOnly_bind; [apply readOnly_findGame|]. intros found.
    read_only.
  - apply readOnly_getParticipants.
  - unfold getGameId. apply readOnly_async.
    apply readOnly_bind; [apply readOnly_bind; [apply readOnly_getParticipants | read_only]|].
    intros entries. read_only.
Qed.

End ReadOnly.

(** ** Setting the store up *)

Section Initialize.

Variable this : LocalFilesystem.





End Initialize.


(** ** Saving, then reading *)

Section SaveLoad.

Variable JSON_parse : string → option JSON.
Variable JSON_stringify : JSON → string.
Variable Engine : Type.
Variable serialize : Game Engine → result SerializedGame.

Local Abbreviation textOf' := (textOf JSON_stringify).
Local Abbreviation save this := (saveGame JSON_stringify Engine serialize this).

(** The state [saveGame] leaves when nothing stands in its way. *)
Lemma saveGame_run (this : LocalFilesystem) (game : Game Engine)
    (sg : SerializedGame) (fs : FS) :
  serialize game = Return sg →
  Fs.writeError fs (filename this (sg_id sg)) = None →
  Fs.writeError fs (historyFilename this (sg_id sg) (Int (sg_lastSaveId sg))) = None →
  save this game fs
  = (Return (Resolved ()),
     mkGame (id game) (lastSaveId game + 1) (engine game),
     <[historyFilename this (sg_id sg) (Int (sg_lastSaveId sg)) := File (textOf' sg)]>
       (<[filename this (sg_id sg) := File (textOf' sg)]> fs)).
Proof.
  intros Hser Hw1 Hw2. unfold saveGame, saveSerializedGame. run. rewrite Hser.
  rewrite (writeFileSync_ok _ _ _ Hw1).
  by rewrite (writeFileSync_ok _ _ _ (writeError_insert _ _ _ _ Hw1 Hw2)).
Qed.

(** The names of the files of a game whose id has no slash have none
    either. *)
Lemma snapshot_name_plain (g : string) :
  Str.contains "/" g = false → Str.contains "/" (g +:+ ".json") = false.
Proof. intros Hg. by rewrite contains_app, Hg. Qed.


(** In a store made by the constructor, the snapshot of a game whose id has
    no slash is no history file. *)
Lemma snapshot_not_history (d g g' : string) (s : number) :
  Str.contains "/" g = false →
  filename (new d) g ≠ historyFilename (new d) g' s.
Proof.
  intros Hg E. unfold filename, historyFilename, new, Path.resolve in E. simpl in E.
  rewrite app_assoc_s in E. apply String.app_inj in E.
  change ("/" +:+ g +:+ ".json") with (String "/" (g +:+ ".json")) in E.
  change ("/" +:+ "history" +:+ ?x) with (String "/" ("history" +:+ x)) in E.
  injection E as E.
  apply (f_equal (Str.contains "/")) in E.
  rewrite (snapshot_name_plain g Hg) in E.
  by rewrite !app_cons in E.
Qed.

(** X3. What was saved is what is read: after a save that went through, both
    [getGame] and [getGameVersion] at the save id of the save resolve to
    the value [JSON.parse] makes of the text [JSON.stringify] made of the
    serialized game. *)
Theorem saveGame_then_load (this : LocalFilesystem) (game : Game Engine)
    (sg : SerializedGame) (v : JSON) (fs : FS) :
  serialize game = Return sg →
  Fs.writeError fs (filename this (sg_id sg)) = None →
  Fs.writeError fs (historyFilename this (sg_id sg) (Int (sg_lastSaveId sg))) = None →
  JSON_parse (JSON_stringify (gameJSON sg)) = Some v →
  let fs' := (save this game fs).2 in
  (save this game fs).1.1 = Return (Resolved ())
  ∧ getGame JSON_parse this (sg_id sg) fs' = (Return (Resolved v), fs')
  ∧ getGameVersion JSON_parse this (sg_id sg) (Int (sg_lastSaveId sg)) fs'
    = (Return (Resolved v), fs').
Proof.
  intros Hser Hw1 Hw2 Hv. rewrite (saveGame_run _ _ _ _ Hser Hw1 Hw2). simpl.
  split; [done|]. rewrite getGame_eq, getGameVersion_eq, lookup_insert_eq.
  destruct (decide (historyFilename this (sg_id sg) (Int (sg_lastSaveId sg))
                    = filename this (sg_id sg))) as [->|Hne].
  - rewrite lookup_insert_eq. unfold textOf. by rewrite Hv.
  - rewrite lookup_insert_ne, lookup_insert_eq by done. unfold textOf. by rewrite Hv.
Qed.



(** X6. A save shows in the listing of the save ids: after game [g], of an id
    of one line without slash, was saved at the natural save id [s],
    [getSaveIds g] resolves to a list that holds [s]. *)
Theorem saveGame_then_getSaveIds (this : LocalFilesystem) (game : Game Engine)
    (sg : SerializedGame) (fs : FS) :
  fs !! historyFolder this = Some Directory →
  serialize game = Return sg →
  plainName (sg_id sg) = true → 0 ≤ sg_lastSaveId sg →
  Fs.writeError fs (filename this (sg_id sg)) = None →
  Fs.writeError fs (historyFilename this (sg_id sg) (Int (sg_lastSaveId sg))) = None →
  let fs' := (save this game fs).2 in
  ∃ ids, getSaveIds this (sg_id sg) fs' = (Return (Resolved ids), fs')
         ∧ Int (sg_lastSaveId sg) ∈ ids.
Proof.
  intros Hhist Hser Hplain Hnat Hw1 Hw2.
  rewrite (saveGame_run _ _ _ _ Hser Hw1 Hw2). simpl.
  apply (getSaveIds_lists_own_saves _ _ _ (textOf' sg)); [|done|done|].
  - apply writeError_None in Hw1 as [_ Hw1]. apply writeError_None in Hw2 as [_ Hw2].
    rewrite !lookup_insert_ne; [done|congruence|congruence].
  - apply lookup_insert_eq.
Qed.

End SaveLoad.

(** The first save of [g1] in the store that was set up, read back. *)
Lemma saveGame_then_load_witness :
  let fs' := Demo.save (Demo.game "g1" 0) Demo.empty in
  getGame MiniJSON.parse Demo.store "g1" fs'
    = (Return (Resolved (gameJSON (Demo.serialized "g1" 0))), fs')
  ∧ getGameVersion MiniJSON.parse Demo.store "g1" (Int 0) fs'
    = (Return (Resolved (gameJSON (Demo.serialized "g1" 0))), fs').
Proof.
  exact (proj2 (saveGame_then_load MiniJSON.parse MiniJSON.stringify Demo.Engine
                  Demo.serialize Demo.store (Demo.game "g1" 0) (Demo.serialized "g1" 0)
                  (gameJSON (Demo.serialized "g1" 0)) Demo.empty
                  eq_refl ltac:(vm_compute; reflexivity) ltac:(vm_compute; reflexivity)
                  ltac:(vm_compute; reflexivity))).
Defined.



Lemma saveGame_then_getSaveIds_witness :
  ∃ ids, getSaveIds Demo.store "g1" (Demo.save (Demo.game "g1" 0) Demo.empty)
         = (Return (Resolved ids), Demo.save (Demo.game "g1" 0) Demo.empty)
         ∧ Int 0 ∈ ids.
Proof.
  apply (saveGame_then_getSaveIds MiniJSON.stringify Demo.Engine Demo.serialize
           Demo.store (Demo.game "g1" 0) (Demo.serialized "g1" 0) Demo.empty);
    try (vm_compute; reflexivity); vm_compute; discriminate.
Defined.

(** ** The history folder of a store whose game ids have no dash *)

Section HistoryFolder.

Variable this : LocalFilesystem.

Lemma stripPrefix_Some (p s r : string) : Str.stripPrefix p s = Some r → s = p +:+ r.
Proof.
  revert s. induction p as [|a p IH]; intros s; [by intros [= ->]|].
  destruct s as [|b s]; [done|]. simpl.
  destruct (decide (a = b)) as [->|]; [|done]. intros H.
  by rewrite app_cons, <- (IH _ H).
Qed.

(** What [readdirSync] lists is in the folder, under the listed name and
    of the listed kind. *)
Lemma dirent_inv (folder : string) (d : Dirent) (fs : FS) :
  d ∈ omap (Fs.dirent folder) (map_to_list fs) →
  ∃ n, fs !! Path.resolve folder (name d) = Some n
       ∧ isFile d = match n with File _ => true | Directory => false end.
Proof.
  intros ([p n] & Hin & Hd)%list_elem_of_omap.
  apply elem_of_map_to_list in Hin.
  unfold Fs.dirent, Path.entryOf in Hd. simpl in Hd.
  destruct (Str.stripPrefix (folder +:+ "/") p) as [m|] eqn:Hp; [|done].
  apply stripPrefix_Some in Hp. simpl in Hd.
  destruct (bool_decide (m = "") || Str.contains "/" m); [done|].
  injection Hd as <-. simpl. exists n. split; [|done].
  unfold Path.resolve. by rewrite <- app_assoc_s, <- Hp.
Qed.







End HistoryFolder.



(** ** Trimming the history *)

Section Trimming.

Variable this : LocalFilesystem.

Local Abbreviation unlinkAll g := (forEach (λ (_ : unit) v, deleteVersion this g v) ()).

Lemma unlinkAll_cons (g : GameId) (v : number) (l : list number) (fs : FS) :
  unlinkAll g (v :: l) fs
  = match fs !! historyFilename this g v with
    | Some (File _) => unlinkAll g l (delete (historyFilename this g v) fs)
    | Some Directory => (Throw (SystemError EISDIR (historyFilename this g v)), fs)
    | None => (Throw (SystemError ENOENT (historyFilename this g v)), fs)
    end.
Proof.
  simpl. rewrite bind_run. unfold deleteVersion at 1, Fs.unlinkSync.
  by destruct (fs !! historyFilename this g v) as [[?|]|].
Qed.

(** The loop of [deleteGameNbrSaves] removes files, and only history files
    of the versions it is given; it stops at the first it cannot remove. *)
Lemma unlinkAll_frame (g : GameId) (l : list number) (fs : FS) (p : string) :
  (unlinkAll g l fs).2 !! p = fs !! p
  ∨ ((unlinkAll g l fs).2 !! p = None
     ∧ (∃ text, fs !! p = Some (File text))
     ∧ ∃ v, v ∈ l ∧ p = historyFilename this g v).
Proof.
  revert fs. induction l as [|v l IH]; intros fs; [by left|].
  rewrite unlinkAll_cons.
  destruct (fs !! historyFilename this g v) as [[text|]|] eqn:Hv; [|by left..].
  destruct (IH (delete (historyFilename this g v) fs))
    as [Hsame | (Hnone & [t Ht] & v' & Hv' & ->)].
  - rewrite Hsame. destruct (decide (historyFilename this g v = p)) as [<-|Hne].
    + right. rewrite lookup_delete_eq. split; [done|]. split; [eauto|].
      exists v. split; [left | done].
    + left. by rewrite lookup_delete_ne.
  - right. split; [done|].
    destruct (decide (historyFilename this g v = historyFilename this g v')) as [E|Hne].
    + rewrite E, lookup_delete_eq in Ht. done.
    + rewrite lookup_delete_ne in Ht by done. split; [eauto|].
      exists v'. split; [by right | done].
Qed.

Lemma deleteGameNbrSaves_frame (g : GameId) (n : Z) (fs : FS) (p : string) :
  (deleteGameNbrSaves this g n fs).2 !! p = fs !! p
  ∨ ((deleteGameNbrSaves this g n fs).2 !! p = None
     ∧ (∃ text, fs !! p = Some (File text))
     ∧ ∃ v, p = historyFilename this g v).
Proof.
  unfold deleteGameNbrSaves. destruct (n <=? 0); [by left|].
  rewrite bind_run. pose proof (readOnly_getSaveIds this g fs) as Hro.
  destruct (getSaveIds this g fs) as [[e|[ids|e]] fs1]; simpl in Hro; subst fs1;
    [by left | | by left].
  unfold andThen, async.
  destruct (unlinkAll_frame g (sliceLast n ids) fs p)
    as [Hsame | (Hnone & Hfile & v & _ & ->)];
    destruct (unlinkAll g (sliceLast n ids) fs) as [[e|[]] fs2]; simpl in *; eauto 6.
Qed.



End Trimming.

(** X9. In a store made by the constructor, [deleteGameNbrSaves g] creates and
    rewrites nothing: whatever its outcome, a path holds what it held or, if
    it is the history file of a version of [g], nothing any more. The
    snapshot of no game (of an id without slash) is touched. *)
Theorem deleteGameNbrSaves_removes_only_history (d : string) (g : GameId) (n : Z) (fs : FS) :
  let this := new d in
  let fs' := (deleteGameNbrSaves this g n fs).2 in
  (∀ p, fs' !! p = fs !! p
        ∨ (fs' !! p = None ∧ (∃ text, fs !! p = Some (File text))
           ∧ ∃ v, p = historyFilename this g v))
  ∧ (∀ g', Str.contains "/" g' = false → fs' !! filename this g' = fs !! filename this g').
Proof.
  intros this fs'. split; [intros p; apply deleteGameNbrSaves_frame|].
  intros g' Hg'.
  destruct (deleteGameNbrSaves_frame this g n fs (filename this g'))
    as [Hsame | (_ & _ & v & Hv)]; [done|].
  by apply snapshot_not_history in Hv.
Qed.

(** [deleteGameNbrSaves] on [Demo.saved]: the snapshot of [g1] stays. *)
Lemma deleteGameNbrSaves_removes_only_history_witness :
  Str.contains "/" "g1" = false
  ∧ (deleteGameNbrSaves (new "/srv/db") "g1" 1 Demo.saved).2 !! filename (new "/srv/db") "g1"
    = Demo.saved !! filename (new "/srv/db") "g1".
Proof.
  split; [reflexivity|].
  exact (proj2 (deleteGameNbrSaves_removes_only_history "/srv/db" "g1" 1 Demo.saved)
           "g1" eq_refl).
Defined.


(** ** Restoring, counting and scanning: outcomes *)

Section Outcomes.

Variable isGameId : string → bool.
Variable JSON_parse : string → option JSON.
Variable this : LocalFilesystem.




(** X12. Every game id that [getGameIds] lists is accepted by [isGameId] and is
    what the pattern takes from the name of a regular file of the db
    folder: folders, the history folder among them, and files of other
    names are passed over. A game id of one line and without slash that
    [isGameId] accepts is listed when its snapshot file exists. *)
Theorem getGameIds_lists (fs : FS) :
  fs !! dbFolder this = Some Directory →
  ∃ ids, getGameIds isGameId this fs = (Return (Resolved ids), fs)
         ∧ (∀ g, g ∈ ids →
                 isGameId g = true
                 ∧ ∃ entry text,
                     fs !! Path.resolve (dbFolder this) entry = Some (File text)
                     ∧ Regex.exec Regex.gameFile entry = Some [g])
         ∧ (∀ g text, plainName g = true → isGameId g = true →
                      fs !! filename this g = Some (File text) → g ∈ ids).
Proof.
  intros Hd. rewrite (getGameIds_eq isGameId this fs Hd). eexists. split; [done|]. split.
  - intros g ([nm file] & Hin & Hg)%list_elem_of_omap.
    unfold asGameId in Hg. simpl in Hg.
    destruct file; [|done]. simpl in Hg.
    destruct (Regex.exec Regex.gameFile nm) as [[|r [|? ?]]|] eqn:Hexec; try done.
    destruct (isGameId r) eqn:Hr; [|done]. injection Hg as ->.
    split; [done|].
    destruct (dirent_inv _ _ _ Hin) as (node & Hnode & Hfile). simpl in *.
    destruct node as [text|]; [|done]. eauto.
  - intros g text. apply snapshot_listed.
Qed.

(** X13. The count [getPlayerCount] resolves to is the [length] of the [players]
    of the game [getGameVersion] resolves to at save id 0. *)
Theorem getPlayerCount_agrees_with_version (g : GameId) (count : value) (fs fs' : FS) :
  getPlayerCount isGameId JSON_parse this g fs = (Return (Resolved count), fs') →
  ∃ game players,
    getGameVersion JSON_parse this g (Int 0) fs = (Return (Resolved game), fs)
    ∧ Js.getProp (Some game) "players" = Return players
    ∧ Js.getProp players "length" = Return count.
Proof.
  destruct (fs !! dbFolder this) as [[?|]|] eqn:Hd.
  1,3: unfold getPlayerCount, getGameIds, async, Fs.readdirSync;
       rewrite !bind_run, Hd; done.
  rewrite (getPlayerCount_eq _ _ _ _ _ Hd), getGameVersion_eq.
  case_bool_decide; [|done]. unfold countPlayers.
  destruct (fs !! historyFilename this g (Int 0)) as [[text|]|]; [|done..].
  destruct (JSON_parse text) as [game|]; [|done].
  destruct (Js.getProp (Some game) "players") as [e|players] eqn:Hp; [done|].
  destruct (Js.getProp players "length") as [e|len] eqn:Hl; [done|].
  intros [= <- <-]. eauto.
Qed.

End Outcomes.

(** ** The game of a participant *)

Section GameOfParticipant.

Variable isGameId : string → bool.
Variable JSON_parse : string → option JSON.
Variable this : LocalFilesystem.

Local Abbreviation snapshot := (snapshotParticipants JSON_parse this).
Local Abbreviation listed := (listedGameIds isGameId this).

Lemma includes_spec (ids : list value) (id : string) :
  includes ids id = true ↔ Some (JStr id) ∈ ids.
Proof.
  unfold includes. rewrite existsb_exists. split.
  - intros (v & Hin & Hv). destruct v as [[| | |s| |]|]; try done.
    apply bool_decide_eq_true in Hv as ->. by apply list_elem_of_In.
  - intros Hin. exists (Some (JStr id)). split; [by apply list_elem_of_In|].
    by apply bool_decide_eq_true.
Qed.

Lemma idsOf_fun (players : list JSON) (ids ids' : list value) :
  idsOf players ids → idsOf players ids' → ids = ids'.
Proof.
  unfold idsOf. intros H. revert ids'.
  induction H; intros ids' H'; inversion H'; subst; [done|].
  f_equal; [congruence | eauto].
Qed.

Lemma snapshotParticipants_fun (fs : FS) (g : GameId) (ids ids' : list value) :
  snapshot fs g ids → snapshot fs g ids' → ids = ids'.
Proof.
  intros (text & game & players & pids & sp & Hf & Hp & Hps & Hids & Hsp & ->)
         (text' & game' & players' & pids' & sp' & Hf' & Hp' & Hps' & Hids' & Hsp' & ->).
  assert (text' = text) as -> by congruence.
  assert (game' = game) as -> by congruence.
  assert (players' = players) as -> by congruence.
  assert (sp' = sp) as -> by congruence.
  by rewrite (idsOf_fun _ _ _ Hids Hids').
Qed.

(** [getGameId] in terms of the loop of [getParticipants]. *)
Lemma getGameId_unfold (participant : string) (fs : FS) :
  fs !! dbFolder this = Some Directory →
  getGameId isGameId JSON_parse this participant fs
  = match forEach (addParticipants isGameId JSON_parse this) []
            (omap (Fs.dirent (dbFolder this)) (map_to_list fs)) fs with
    | (Return entries, fs') =>
        (Return (match List.find (λ entry, includes (participantIds entry) participant)
                         entries with
                 | Some entry => Resolved (gameId entry)
                 | None => Rejected (Error ("participant id " +:+ participant
                                            +:+ " not found"))
                 end), fs')
    | (Throw e, fs') => (Return (Rejected e), fs')
    end.
Proof.
  intros Hd. unfold getGameId, async. rewrite !bind_run.
  rewrite (getParticipants_unfold isGameId JSON_parse this fs Hd).
  destruct (forEach _ _ _ fs) as [[e|entries] fs1]; [done|]. simpl.
  by destruct (List.find _ entries).
Qed.

(** X14. In a store whose db folder exists, [getGameId] never throws and leaves
    the file system as it was. The game id it resolves to is a listed one
    whose snapshot names the participant, among its players or as its
    spectator. When the snapshot of every listed game can be read, it
    resolves if some listed game names the participant, and is rejected
    with "participant id ... not found" if none does. When the snapshot of
    one listed game cannot be read, it is rejected for every participant,
    those of the readable games too. *)
Theorem getGameId_outcomes (participant : string) (fs : FS) :
  fs !! dbFolder this = Some Directory →
  (∃ answer, getGameId isGameId JSON_parse this participant fs = (Return answer, fs))
  ∧ (∀ g fs',
       getGameId isGameId JSON_parse this participant fs = (Return (Resolved g), fs') →
       g ∈ listed fs ∧ ∃ ids, snapshot fs g ids ∧ Some (JStr participant) ∈ ids)
  ∧ ((∀ g, g ∈ listed fs → ∃ ids, snapshot fs g ids) →
     ((∃ g ids, g ∈ listed fs ∧ snapshot fs g ids ∧ Some (JStr participant) ∈ ids) →
      ∃ g, getGameId isGameId JSON_parse this participant fs = (Return (Resolved g), fs))
     ∧ ((∀ g ids, g ∈ listed fs → snapshot fs g ids → Some (JStr participant) ∉ ids) →
        getGameId isGameId JSON_parse this participant fs
        = (Return (Rejected (Error ("participant id " +:+ participant +:+ " not found"))),
           fs)))
  ∧ ((∃ g, g ∈ listed fs ∧ ¬ ∃ ids, snapshot fs g ids) →
     ∃ e, getGameId isGameId JSON_parse this participant fs = (Return (Rejected e), fs)).
Proof.
  intros Hd. rewrite (getGameId_unfold participant fs Hd).
  destruct (forEach_addParticipants isGameId JSON_parse this
              (omap (Fs.dirent (dbFolder this)) (map_to_list fs)) [] fs)
    as [Hsound Hruns].
  pose proof (readOnly_getParticipants isGameId JSON_parse this fs) as Hro.
  rewrite (getParticipants_unfold isGameId JSON_parse this fs Hd) in Hro.
  destruct (forEach _ _ _ fs) as [[e|entries] fs1] eqn:Hloop.
  - simpl in Hro. subst fs1.
    split; [eauto|]. split; [done|]. split; [|eauto].
    intros Hall. by destruct (Hruns Hall) as [out [=]].
  - destruct (Hsound entries fs1 eq_refl) as (-> & new & Hnew & Hnames & Hall).
    simpl in Hnew. subst new.
    assert (∀ g ids, g ∈ listed fs → snapshot fs g ids →
                     ∃ entry, entry ∈ entries ∧ gameId entry = g
                              ∧ participantIds entry = ids) as Hentry.
    { intros g ids Hg Hs. unfold listedGameIds in Hg. rewrite <- Hnames in Hg.
      apply list_elem_of_fmap in Hg as (entry & -> & Hin).
      exists entry. split; [done|]. split; [done|].
      rewrite Forall_forall in Hall.
      exact (snapshotParticipants_fun _ _ _ _ (Hall entry Hin) Hs). }
    destruct (List.find _ entries) as [entry|] eqn:Hfind.
    + apply find_some in Hfind as [Hin Hinc].
      apply list_elem_of_In in Hin. apply includes_spec in Hinc.
      assert (gameId entry ∈ listed fs
              ∧ ∃ ids, snapshot fs (gameId entry) ids ∧ Some (JStr participant) ∈ ids)
        as Hgood.
      { split.
        - unfold listedGameIds. rewrite <- Hnames. apply list_elem_of_fmap. eauto.
        - exists (participantIds entry). split; [|done].
          rewrite Forall_forall in Hall. by apply Hall. }
      split; [eauto|]. split; [by intros g fs' [= <- <-]|]. split.
      * intros _. split; [eauto|].
        intros Hnone. destruct Hgood as (Hg & ids & Hs & Hp).
        by destruct (Hnone _ _ Hg Hs).
      * intros (g & Hg & Hno). exfalso. apply Hno.
        unfold listedGameIds in Hg. rewrite <- Hnames in Hg.
        apply list_elem_of_fmap in Hg as (entry' & -> & Hin').
        rewrite Forall_forall in Hall. eauto.
    + split; [eauto|]. split; [done|]. split.
      * intros _. split; [|done].
        intros (g & ids & Hg & Hs & Hp).
        destruct (Hentry g ids Hg Hs) as (entry & Hin & <- & <-).
        apply list_elem_of_In in Hin.
        pose proof (find_none _ _ Hfind entry Hin) as Hf. simpl in Hf.
        apply includes_spec in Hp. congruence.
      * intros (g & Hg & Hno). exfalso. apply Hno.
        unfold listedGameIds in Hg. rewrite <- Hnames in Hg.
        apply list_elem_of_fmap in Hg as (entry' & -> & Hin').
        rewrite Forall_forall in Hall. eauto.
Qed.

End GameOfParticipant.



(** [getGameIds] on [Demo.saved] lists [g1]. *)
Lemma getGameIds_lists_witness :
  ∃ ids, getGameIds Demo.isGameId Demo.store Demo.saved
         = (Return (Resolved ids), Demo.saved)
         ∧ "g1" ∈ ids.
Proof.
  destruct (getGameIds_lists Demo.isGameId Demo.store Demo.saved
              ltac:(vm_compute; reflexivity)) as (ids & Hrun & _ & Hlisted).
  exists ids. split; [exact Hrun|].
  apply (Hlisted "g1" (Demo.text "g1" 1)); vm_compute; reflexivity.
Defined.

(** [getPlayerCount] and [getGameVersion] on [Demo.saved]. *)
Lemma getPlayerCount_agrees_with_version_witness :
  ∃ game players,
    getGameVersion MiniJSON.parse Demo.store "g1" (Int 0) Demo.saved
    = (Return (Resolved game), Demo.saved)
    ∧ Js.getProp (Some game) "players" = Return players
    ∧ Js.getProp players "length" = Return (Some (JNum 2)).
Proof.
  apply (getPlayerCount_agrees_with_version Demo.isGameId MiniJSON.parse Demo.store "g1"
           (Some (JNum 2)) Demo.saved Demo.saved).
  vm_compute; reflexivity.
Defined.

(** [getGameId] on [Demo.saved]: the second player of [g1]. *)
Lemma getGameId_outcomes_witness :
  "g1" ∈ listedGameIds Demo.isGameId Demo.store Demo.saved
  ∧ ∃ ids, snapshotParticipants MiniJSON.parse Demo.store Demo.saved "g1" ids
           ∧ Some (JStr "p2") ∈ ids.
Proof.
  apply (proj1 (proj2 (getGameId_outcomes Demo.isGameId MiniJSON.parse Demo.store "p2"
                         Demo.saved ltac:(vm_compute; reflexivity)))
           "g1" Demo.saved).
  vm_compute; reflexivity.
Defined.

(** * The text of a card requirement *)

Section RequirementText.

Context {RequirementType : Type} `{EqDecision RequirementType}.
Variable OXYGEN TEMPERATURE : RequirementType.
Variable typeText : RequirementType → string.

Local Abbreviation toString := (Card.toString RequirementType OXYGEN TEMPERATURE).
Local Abbreviation getRequirementText :=
  (Card.getRequirementText RequirementType OXYGEN TEMPERATURE typeText).

(** The text of an integer holds digits and, in front, at most one sign. *)
Lemma toString_chars (z : Z) (c : ascii) :
  Num.isDigit c = false → c ≠ "-"%char →
  Str.contains c (Num.toString (Int z)) = false.
Proof.
  intros Hc Hm. unfold Num.toString.
  destruct (Z.ltb_spec z 0).
  - rewrite app_cons, app_empty_l. simpl.
    destruct (decide ("-"%char = c)); [congruence|].
    apply (all_contains Num.isDigit); [|done]. apply decimal_spec. lia.
  - apply (all_contains Num.isDigit); [|done]. by apply decimal_spec.
Qed.

Lemma toString_inj (z1 z2 : Z) :
  Num.toString (Int z1) = Num.toString (Int z2) → z1 = z2.
Proof.
  unfold Num.toString.
  destruct (Z.ltb_spec z1 0) as [H1|H1], (Z.ltb_spec z2 0) as [H2|H2].
  - rewrite !app_cons, !app_empty_l. intros [= E].
    destruct (decimal_spec (- z1)) as (_ & _ & V1); [lia|].
    destruct (decimal_spec (- z2)) as (_ & _ & V2); [lia|].
    rewrite E in V1. assert (- z1 = - z2) by congruence. lia.
  - rewrite app_cons, app_empty_l.
    destruct (decimal_spec z2 H2) as (D2 & N2 & _).
    destruct (Num.decimal z2) as [|c d]; [done|]. intros [= <- _]. done.
  - rewrite app_cons, app_empty_l.
    destruct (decimal_spec z1 H1) as (D1 & N1 & _).
    destruct (Num.decimal z1) as [|c d]; [done|]. intros [= -> _]. done.
  - intros E.
    destruct (decimal_spec z1 H1) as (_ & _ & V1).
    destruct (decimal_spec z2 H2) as (_ & _ & V2).
    rewrite E in V1. congruence.
Qed.

Lemma toString_no_blank (r : Card.CardRequirement RequirementType) :
  Str.contains " " (toString r) = false.
Proof.
  unfold Card.toString.
  repeat case_decide; rewrite ?contains_app, toString_chars; done.
Qed.

Lemma toString_amount (r1 r2 : Card.CardRequirement RequirementType) :
  toString r1 = toString r2 → Card.amount _ r1 = Card.amount _ r2.
Proof.
  pose proof (toString_chars (Card.amount _ r1) "%" eq_refl ltac:(done)) as P1.
  pose proof (toString_chars (Card.amount _ r2) "%" eq_refl ltac:(done)) as P2.
  pose proof (toString_chars (Card.amount _ r1) "176" eq_refl ltac:(done)) as D1.
  pose proof (toString_chars (Card.amount _ r2) "176" eq_refl ltac:(done)) as D2.
  unfold Card.toString, Card.degree.
  repeat case_decide; intros E.
  - apply (split_last "%" _ _ "" "") in E as [E _]; [by apply toString_inj|done..].
  - apply (f_equal (Str.contains "%")) in E.
    rewrite !contains_app, P1, P2 in E. done.
  - apply (f_equal (Str.contains "%")) in E.
    rewrite !contains_app, P1, P2 in E. done.
  - apply (f_equal (Str.contains "%")) in E.
    rewrite !contains_app, P1, P2 in E. done.
  - apply (split_last "176" _ _ "" "") in E as [E _]; [by apply toString_inj|done..].
  - apply (f_equal (Str.contains "176")) in E.
    rewrite !contains_app, D1, D2 in E. done.
  - apply (f_equal (Str.contains "%")) in E.
    rewrite !contains_app, P1, P2 in E. done.
  - apply (f_equal (Str.contains "176")) in E.
    rewrite !contains_app, D1, D2 in E. done.
  - by apply toString_inj.
Qed.

(** X15. The text of a requirement tells its amount, whether it is a maximum,
    and the text of its type: two requirements of one text agree on all
    three, and are the same requirement when the types of the enumeration
    have different texts. *)
Theorem getRequirementText_determines (r1 r2 : Card.CardRequirement RequirementType) :
  getRequirementText r1 = getRequirementText r2 →
  Card.isMax _ r1 = Card.isMax _ r2
  ∧ Card.amount _ r1 = Card.amount _ r2
  ∧ typeText (Card.type _ r1) = typeText (Card.type _ r2)
  ∧ ((∀ a b, typeText a = typeText b → a = b) → r1 = r2).
Proof.
  unfold Card.getRequirementText. intros E.
  rewrite !app_cons, !app_empty_l in E.
  assert (Card.isMax _ r1 = Card.isMax _ r2
          ∧ toString r1 +:+ String " " (typeText (Card.type _ r1))
            = toString r2 +:+ String " " (typeText (Card.type _ r2))) as [Hmax E'].
  { destruct (Card.isMax _ r1), (Card.isMax _ r2);
      rewrite ?app_cons, ?app_empty_l in E; try discriminate.
    - injection E as E. done.
    - injection E as E. done. }
  apply split_first in E' as [Hs Ht]; [|apply toString_no_blank..].
  apply toString_amount in Hs.
  split; [done|]. split; [done|]. split; [done|].
  intros Hinj. apply Hinj in Ht.
  destruct r1, r2; simpl in *; congruence.
Qed.

End RequirementText.

(** The requirement "max 5% Oxygen", on an enumeration whose members are
    their texts. *)
Lemma getRequirementText_determines_witness :
  Card.isMax _ (Card.new string "Oxygen" 5 true) = true
  ∧ Card.amount _ (Card.new string "Oxygen" 5 true) = 5.
Proof.
  destruct (getRequirementText_determines "Oxygen" "Temperature" (λ t : string, t)
              (Card.new string "Oxygen" 5 true)
              (Card.mkCardRequirement string "Oxygen" 5 true)
              ltac:(vm_compute; reflexivity)) as (Hmax & Hamount & _).
  split; [exact Hmax | exact Hamount].
Defined.
